(** * A shallow embedding of slash_util's command pipeline

    Sources: [src/slash_util/core.py] (option schema builder and argument
    resolver), [src/slash_util/bot.py] (dispatch, error routing, sync),
    [src/slash_util/cog.py] (per-cog listener) and [src/slash_util/modal.py]
    (modal result slot). *)

From Stdlib Require Import ZArith QArith Ascii.
From stdpp Require Import base gmap strings list pretty.

Open Scope string_scope.
Open Scope list_scope.
Set Warnings "-register-all".

(** ** JSON values and Python dicts *)

Inductive json :=
| JNull
| JBool (b : bool)
| JInt (z : Z)
| JFloat (q : Q)
| JStr (s : string)
| JList (l : list json)
| JObj (kv : list (string * json)).

(** A Python dict with insertion order: an association list whose keys
    are distinct. [d[k] = v] updates in place or appends. *)
Definition dict := list (string * json).

Fixpoint dict_get (k : string) (d : dict) : option json :=
  match d with
  | [] => None
  | (k', v) :: r => if String.eqb k k' then Some v else dict_get k r
  end.

Fixpoint dict_set (k : string) (v : json) (d : dict) : dict :=
  match d with
  | [] => [(k, v)]
  | (k', v') :: r =>
      if String.eqb k k' then (k, v) :: r else (k', v') :: dict_set k v r
  end.

(** Python truthiness of [d.get(k)]: [None] is falsy. *)
Definition py_truthy (o : option json) : bool :=
  match o with
  | None | Some JNull => false
  | Some (JBool b) => b
  | Some (JInt z) => negb (Z.eqb z 0)
  | Some (JFloat q) => negb (Qeq_bool q 0)
  | Some (JStr s) => negb (String.eqb s "")
  | Some (JList l) => negb (Nat.eqb (length l) 0)
  | Some (JObj kv) => negb (Nat.eqb (length kv) 0)
  end.

(** ** Python exceptions

    The classes the modelled code raises or catches. [CommandError] and
    [CommandInvokeError] are [commands.CommandError] and its subclass;
    [OtherException] is any other subclass of [Exception]; [BaseOnly] is a
    [BaseException] that is not an [Exception] (e.g. [KeyboardInterrupt],
    [SystemExit], [asyncio.CancelledError]). *)
Inductive exn :=
| TypeError (msg : string)
| ValueError (msg : string)
| KeyError
| IndexError
| AssertionError
| AttributeError (msg : string)
| RuntimeError (msg : string)
| InvalidStateError
| CommandError (name : string)
| CommandInvokeError (original : exn)
| OtherException (name : string)
| BaseOnly (name : string).

Definition is_command_error (e : exn) : bool :=
  match e with
  | CommandError _ | CommandInvokeError _ => true
  | _ => false
  end.

Definition is_Exception (e : exn) : bool :=
  match e with
  | BaseOnly _ => false
  | _ => true
  end.

(** ** Types, [command_type_map] and [channel_filter] (core.py 77-95) *)

Inductive pytype :=
| T_str | T_int | T_bool | T_float
| T_User | T_Member
| T_TextChannel | T_VoiceChannel | T_CategoryChannel | T_StageChannel
| T_Role | T_Attachment | T_Message | T_NoneType
| T_other (name : string).

Definition command_type_map (t : pytype) : option Z :=
  match t with
  | T_str => Some 3%Z
  | T_int => Some 4%Z
  | T_bool => Some 5%Z
  | T_User | T_Member => Some 6%Z
  | T_TextChannel | T_VoiceChannel | T_CategoryChannel => Some 7%Z
  | T_Role => Some 8%Z
  | T_float => Some 10%Z
  | T_Attachment => Some 11%Z
  | _ => None
  end.

Definition channel_filter (t : pytype) : option Z :=
  match t with
  | T_TextChannel => Some 0%Z
  | T_VoiceChannel => Some 2%Z
  | T_CategoryChannel => Some 4%Z
  | _ => None
  end.

(** [issubclass(t, discord.abc.GuildChannel)] *)
Definition is_guild_channel (t : pytype) : bool :=
  match t with
  | T_TextChannel | T_VoiceChannel | T_CategoryChannel | T_StageChannel => true
  | _ => false
  end.

(** ** [Range] (core.py 176-187) *)

Inductive num := NInt (z : Z) | NFloat (q : Q).

Definition num_Q (n : num) : Q :=
  match n with NInt z => inject_Z z | NFloat q => q end.

Definition num_type (n : num) : pytype :=
  match n with NInt _ => T_int | NFloat _ => T_float end.

Definition num_json (n : num) : json :=
  match n with NInt z => JInt z | NFloat q => JFloat q end.

Record Range := mkRange { min : option num; max : num }.

(** [Range.__init__]: refuses [min >= max]. *)
Definition Range_new (mn : option num) (mx : num) : exn + Range :=
  match mn with
  | Some m => if Qle_bool (num_Q mx) (num_Q m)
              then inl (ValueError "`min` value must be lower than `max`")
              else inr (mkRange mn mx)
  | None => inr (mkRange mn mx)
  end.

(** ** Annotations and parameters

    [param.annotation] after [eval] of a string annotation: empty, a class,
    a [Range] instance, a [Union[...]] (its [get_args]) or a
    [Literal[...]] (its [__args__]). Literal arguments are the values
    PEP 586 admits that the code can meet: ints, strings, bools, None. *)
Inductive lit := LInt (z : Z) | LStr (s : string) | LBool (b : bool) | LNone.

Definition lit_type (a : lit) : pytype :=
  match a with
  | LInt _ => T_int | LStr _ => T_str | LBool _ => T_bool | LNone => T_NoneType
  end.

Definition lit_json (a : lit) : json :=
  match a with
  | LInt z => JInt z | LStr s => JStr s | LBool b => JBool b | LNone => JNull
  end.

(** [str(a)] *)
Definition py_str (a : lit) : string :=
  match a with
  | LInt z => pretty z
  | LStr s => s
  | LBool b => if b then "True" else "False"
  | LNone => "None"
  end.

Inductive annotation :=
| Ann_empty
| Ann_type (t : pytype)
| Ann_range (r : Range)
| Ann_union (args : list pytype)
| Ann_literal (args : list lit).

(** An [inspect.Parameter]: [default = None] is [param.empty]. *)
Record param := mkParam {
  p_name : string;
  p_annotation : annotation;
  p_default : option json
}.

(** ** The builder's state: [self._parameter_descriptions]

    A [defaultdict] whose default is ["No description provided"]; reading
    a missing key inserts the default. Builder steps thread it and may
    raise, keeping the mutations done before the raise. *)
Abbreviation descs := (gmap string string).

Definition M (A : Type) := descs -> (exn + A) * descs.

Definition retM {A} (a : A) : M A := fun s => (inr a, s).

Definition raiseM {A} (e : exn) : M A := fun s => (inl e, s).

Definition bindM {A B} (m : M A) (k : A -> M B) : M B :=
  fun s => match m s with
           | (inl e, s') => (inl e, s')
           | (inr a, s') => k a s'
           end.

Definition liftM {A} (r : exn + A) : M A := fun s => (r, s).

Definition of_option {A} (e : exn) (o : option A) : M A :=
  match o with Some a => retM a | None => raiseM e end.

Notation "'let*' x ':=' m 'in' k" := (bindM m (fun x => k))
  (at level 200, x name, m at level 100, right associativity).

Definition default_description := "No description provided".

(** [self._parameter_descriptions[name]] *)
Definition get_description (name : string) : M string :=
  fun s => match s !! name with
           | Some v => (inr v, s)
           | None => (inr default_description, <[name := default_description]> s)
           end.

Definition set_description (name v : string) : M unit :=
  fun s => (inr tt, <[name := v]> s).

(** ** [SlashCommand] *)

Record SlashCommand := mkSlash {
  sc_name : string;
  sc_description : string;
  sc_guild_id : option Z;
  (** [self.parameters]: the signature after [self] and [context]. *)
  sc_parameters : list param;
  (** [self.func._param_desc_] as filled by [@describe] (empty when the
      attribute is missing). *)
  sc_param_desc : list (string * string)
}.

(** [SlashCommand._build_parameters]: drops [self] and [context]. *)
Definition build_parameters (sig : list param) : exn + list param :=
  match sig with
  | [] => inl (ValueError "expected argument `self` is missing")
  | [_] => inl (ValueError "expected argument `context` is missing")
  | _ :: _ :: ps => inr ps
  end.

Definition has_param (ps : list param) (k : string) : bool :=
  existsb (fun p => String.eqb (p_name p) k) ps.

(** [SlashCommand._build_descriptions] *)
Fixpoint build_descriptions_loop (ps : list param) (pd : list (string * string)) : M unit :=
  match pd with
  | [] => retM tt
  | (k, v) :: r =>
      if has_param ps k
      then let* _ := set_description k v in build_descriptions_loop ps r
      else raiseM (TypeError "@describe used to describe a non-existant parameter")
  end.

Definition build_descriptions (c : SlashCommand) : M unit :=
  build_descriptions_loop (sc_parameters c) (sc_param_desc c).

(** The [real_t] dispatch (core.py 277-285). *)
Definition real_type (ann : annotation) : M pytype :=
  match ann with
  | Ann_empty => raiseM (TypeError "missing type annotation")
  | Ann_range r => retM (num_type (max r))
  | Ann_union args =>
      match args with a :: _ => retM a | [] => raiseM IndexError end
  | Ann_literal args =>
      match args with a :: _ => retM (lit_type a) | [] => raiseM IndexError end
  | Ann_type t => retM t
  end.

Fixpoint map_channel_filter (args : list pytype) : M (list json) :=
  match args with
  | [] => retM []
  | t :: r =>
      let* c := of_option KeyError (channel_filter t) in
      let* cs := map_channel_filter r in
      retM (JInt c :: cs)
  end.

(** The loop body of [_build_command_payload] for one parameter
    (core.py 269-318). *)
Definition build_option (p : param) : M dict :=
  let name := p_name p in
  let ann := p_annotation p in
  match ann with
  | Ann_empty => raiseM (TypeError "missing type annotation")
  | _ =>
    let* real_t := real_type ann in
    let* typ := of_option KeyError (command_type_map real_t) in
    let* desc := get_description name in
    let option := [("type", JInt typ); ("name", JStr name); ("description", JStr desc)] in
    let option := match p_default p with
                  | None => dict_set "required" (JBool true) option
                  | Some _ => option
                  end in
    match ann with
    | Ann_range r =>
        retM (dict_set "min_value" (match min r with Some m => num_json m | None => JNull end)
               (dict_set "max_value" (num_json (max r)) option))
    | Ann_union args =>
        if forallb is_guild_channel args then
          if negb (Nat.eqb (length args) 3) then
            let* filtered := map_channel_filter args in
            retM (dict_set "channel_types" (JList filtered) option)
          else retM option
        else raiseM (TypeError "Union parameter types only supported on *Channel types")
    | Ann_literal arguments =>
        retM (dict_set "choices"
               (JList (map (fun a => JObj [("name", JStr (py_str a)); ("value", lit_json a)]) arguments))
               option)
    | Ann_type t =>
        if is_guild_channel t then
          let* c := of_option KeyError (channel_filter t) in
          retM (dict_set "channel_types" (JList [JInt c]) option)
        else retM option
    | Ann_empty => retM option
    end
  end.

Fixpoint build_options (ps : list param) : M (list dict) :=
  match ps with
  | [] => retM []
  | p :: r =>
      let* o := build_option p in
      let* os := build_options r in
      retM (o :: os)
  end.

(** [list.sort(key=...)] with a boolean key: Python's sort is stable and
    orders [False] before [True]. Modelled as a stable insertion sort. *)
Section StableSort.
Context {A : Type} (key : A -> bool).

Fixpoint insert_by_key (x : A) (l : list A) : list A :=
  match l with
  | [] => [x]
  | y :: r => if negb (key x) && key y then x :: y :: r else y :: insert_by_key x r
  end.

Fixpoint sort_by_key_aux (acc l : list A) : list A :=
  match l with
  | [] => acc
  | x :: r => sort_by_key_aux (insert_by_key x acc) r
  end.

Definition sort_by_key (l : list A) : list A := sort_by_key_aux [] l.
End StableSort.

(** [lambda f: not f.get('required')] *)
Definition not_required (o : dict) : bool := negb (py_truthy (dict_get "required" o)).

(** [SlashCommand._build_command_payload] (core.py 256-321). *)
Definition build_command_payload (c : SlashCommand) : M dict :=
  let* _ := build_descriptions c in
  let payload := [("name", JStr (sc_name c)); ("description", JStr (sc_description c));
                  ("type", JInt 1)] in
  match sc_parameters c with
  | [] => retM payload
  | params =>
      let* options := build_options params in
      let options := sort_by_key not_required options in
      retM (dict_set "options" (JList (map JObj options)) payload)
  end.

(** ** The Argument Resolver (core.py 32-75 and 218-230) *)

Definition ret_E {A} (a : A) : exn + A := inr a.

Definition bind_E {A B} (m : exn + A) (k : A -> exn + B) : exn + B :=
  match m with inl e => inl e | inr a => k a end.

Notation "'let?' x ':=' m 'in' k" := (bind_E m (fun x => k))
  (at level 200, x name, m at level 100, right associativity).

(** [int(x)] on a JSON value. Strings are decimal digits with an optional
    sign (Python also strips whitespace and accepts underscores; snowflake
    IDs contain neither). *)
Fixpoint digits_value (s : string) (acc : Z) : option Z :=
  match s with
  | EmptyString => Some acc
  | String ch r =>
      let n := Ascii.nat_of_ascii ch in
      if (48 <=? n)%nat && (n <=? 57)%nat
      then digits_value r (10 * acc + Z.of_nat (n - 48))%Z
      else None
  end.

Definition int_of_string (s : string) : option Z :=
  match s with
  | EmptyString => None
  | String "-"%char EmptyString => None
  | String "-"%char r => option_map Z.opp (digits_value r 0)
  | _ => digits_value s 0
  end.

Definition py_int (j : json) : exn + Z :=
  match j with
  | JInt z => inr z
  | JBool b => inr (if b then 1 else 0)%Z
  | JFloat q => inr (Z.quot (Qnum q) (Zpos (Qden q)))
  | JStr s => match int_of_string s with
              | Some z => inr z
              | None => inl (ValueError "invalid literal for int()")
              end
  | _ => inl (TypeError "int() argument must be a string or a number")
  end.

(** The objects the resolver builds from the side-table. Their
    constructors ([discord.Member], [discord.Role], ...) belong to the
    wrapped library and are taken as given; the entity keeps the data it
    was built from. *)
Inductive entity :=
| EMember (data : dict)
| EChannel (cls : string) (data : dict)
| EMessage (data : dict)
| ERole (data : dict)
| EAttachment (data : dict).

(** [discord.channel._guild_channel_factory(d['type'])]: the class for a
    guild channel type, [None] (then called, a [TypeError]) otherwise. *)
Definition guild_channel_factory (t : json) : option string :=
  match t with
  | JInt 0 => Some "TextChannel"
  | JInt 2 => Some "VoiceChannel"
  | JInt 4 => Some "CategoryChannel"
  | JInt 5 => Some "TextChannel"
  | JInt 13 => Some "StageChannel"
  | _ => None
  end.

Abbreviation resolved_map := (gmap Z entity).

(** [for id, d in table.items(): resolved[int(id)] = mk(id, d)] *)
Fixpoint fill_resolved (mk : string -> json -> exn + entity)
    (items : list (string * json)) (acc : resolved_map) : exn + resolved_map :=
  match items with
  | [] => inr acc
  | (id, d) :: r =>
      let? e := mk id d in
      let? k := py_int (JStr id) in
      fill_resolved mk r (<[k := e]> acc)
  end.

(** [data.get(key)], then [if table:] and [table.items()]. *)
Definition resolved_table (key : string) (data : dict) : exn + option (list (string * json)) :=
  match dict_get key data with
  | Some j => if py_truthy (Some j)
              then match j with
                   | JObj kv => inr (Some kv)
                   | _ => inl (AttributeError "object has no attribute 'items'")
                   end
              else inr None
  | None => inr None
  end.

Definition as_dict (j : json) : exn + dict :=
  match j with
  | JObj kv => inr kv
  | _ => inl (TypeError "object does not support item assignment")
  end.

Definition mk_member (members : dict) (id : string) (d : json) : exn + entity :=
  match dict_get id members with
  | Some md => let? md := as_dict md in inr (EMember (dict_set "user" d md))
  | None => inl KeyError
  end.

Definition mk_channel (id : string) (d : json) : exn + entity :=
  let? d := as_dict d in
  let d := dict_set "position" JNull d in
  match dict_get "type" d with
  | Some t => match guild_channel_factory t with
              | Some cls => inr (EChannel cls d)
              | None => inl (TypeError "'NoneType' object is not callable")
              end
  | None => inl KeyError
  end.

Definition mk_simple (ctor : dict -> entity) (id : string) (d : json) : exn + entity :=
  let? d := as_dict d in inr (ctor d).

Definition fill_optional (tbl : exn + option (list (string * json)))
    (mk : string -> json -> exn + entity) (acc : resolved_map) : exn + resolved_map :=
  let? t := tbl in
  match t with
  | Some items => fill_resolved mk items acc
  | None => inr acc
  end.

(** An inbound interaction: whether [interaction.guild] is set, and
    [interaction.data]. *)
Record Interaction := mkInteraction {
  i_guild : bool;
  i_data : dict
}.

(** [_parse_resolved_data(interaction, data, state)] *)
Definition parse_resolved_data (i : Interaction) (data : option json) : exn + resolved_map :=
  if negb (py_truthy data) then inr ∅ else
  if negb (i_guild i) then inl AssertionError else
  let? data := as_dict (match data with Some j => j | None => JNull end) in
  let? acc :=
    let? users := resolved_table "users" data in
    match users with
    | Some items =>
        match dict_get "members" data with
        | Some ms => let? ms := as_dict ms in fill_resolved (mk_member ms) items ∅
        | None => inl KeyError
        end
    | None => inr ∅
    end in
  let? acc := fill_optional (resolved_table "channels" data) mk_channel acc in
  let? acc := fill_optional (resolved_table "messages" data) (mk_simple EMessage) acc in
  let? acc := fill_optional (resolved_table "roles" data) (mk_simple ERole) acc in
  fill_optional (resolved_table "attachments" data) (mk_simple EAttachment) acc.

(** Argument values: a raw JSON value or a resolved entity. *)
Inductive argval := AVJson (j : json) | AVEntity (e : entity).

Fixpoint args_set (k : string) (v : argval) (d : list (string * argval)) : list (string * argval) :=
  match d with
  | [] => [(k, v)]
  | (k', v') :: r => if String.eqb k k' then (k, v) :: r else (k', v') :: args_set k v r
  end.

Definition is_entity_option_type (t : json) : bool :=
  match t with JInt 6 | JInt 7 | JInt 8 => true | _ => false end.

(** One iteration of the loop over [interaction.data['options']]. The
    option's name is used as the key of [result]; names are strings. *)
Definition resolve_option (resolved : resolved_map) (option : json)
    (result : list (string * argval)) : exn + list (string * argval) :=
  let? o := as_dict option in
  let? value := match dict_get "value" o with Some v => inr v | None => inl KeyError end in
  let? typ := match dict_get "type" o with Some t => inr t | None => inl KeyError end in
  let? value :=
    if is_entity_option_type typ then
      let? k := py_int value in
      match resolved !! k with Some e => inr (AVEntity e) | None => inl KeyError end
    else inr (AVJson value) in
  let? name := match dict_get "name" o with
               | Some (JStr n) => inr n
               | Some _ => inl (TypeError "unhashable option name")
               | None => inl KeyError
               end in
  inr (args_set name value result).

Fixpoint resolve_options (resolved : resolved_map) (opts : list json)
    (result : list (string * argval)) : exn + list (string * argval) :=
  match opts with
  | [] => inr result
  | o :: r => let? result := resolve_option resolved o result in resolve_options resolved r result
  end.

(** [SlashCommand._build_arguments] *)
Definition build_arguments (i : Interaction) : exn + list (string * argval) :=
  match dict_get "options" (i_data i) with
  | None => inr []
  | Some opts =>
      let? resolved := parse_resolved_data i (dict_get "resolved" (i_data i)) in
      match opts with
      | JList l => resolve_options resolved l []
      | _ => inl (TypeError "object is not iterable")
      end
  end.

(** ** Error routing during invocation (bot.py 23-29 and 64-68) *)

(** What the awaited handler [command.invoke(ctx, **params)] does. *)
Inductive outcome := Returned | Raised (e : exn).

(** [command_error_wrapper]: [except commands.CommandError: raise];
    [except Exception as e: raise CommandInvokeError(e) from e]. *)
Definition command_error_wrapper (o : outcome) : outcome :=
  match o with
  | Returned => Returned
  | Raised e =>
      if is_command_error e then Raised e
      else if is_Exception e then Raised (CommandInvokeError e)
      else Raised e
  end.

(** The errors handed to [cog.slash_command_error], and the exception
    that leaves the listener, if any. *)
Record invocation := mkInvocation {
  hook_calls : list exn;
  escaped : option exn
}.

(** [try: await command_error_wrapper(...)
     except commands.CommandError as e: await cog.slash_command_error(ctx, e)] *)
Definition invoke_with_hook (o : outcome) : invocation :=
  match command_error_wrapper o with
  | Returned => mkInvocation [] None
  | Raised e =>
      if is_command_error e then mkInvocation [e] None else mkInvocation [] (Some e)
  end.

(** ** The modal correlator (modal.py, _patch.py 263-266, bot.py 40-48,
    cog.py 51-59)

    [_connection._modals] maps a custom id to a modal; each modal object
    [m] owns the future [m._response], a slot identified by a number.
    [Modal.reset] installs a fresh slot. *)
Inductive slot_state := SPending | SDone (i : Interaction) | SFailed (e : exn).

Record MState := mkMState {
  ms_modals : option (gmap string nat);   (** [None]: attribute not set yet *)
  ms_response : gmap nat nat;             (** modal -> its current slot *)
  ms_slots : gmap nat slot_state;
  ms_next : nat                           (** next fresh slot *)
}.

Definition with_modals (st : MState) (t : gmap string nat) : MState :=
  mkMState (Some t) (ms_response st) (ms_slots st) (ms_next st).

Definition with_slot (st : MState) (k : nat) (v : slot_state) : MState :=
  mkMState (ms_modals st) (ms_response st) (<[k := v]> (ms_slots st)) (ms_next st).

(** [modal._response.set_result(interaction)]; a future that is already
    done raises [InvalidStateError]. The list holds the slot fulfilled. *)
Definition set_result (m : nat) (i : Interaction) (st : MState)
    : option exn * MState * list (nat * Interaction) :=
  match ms_response st !! m with
  | Some k =>
      match ms_slots st !! k with
      | Some SPending => (None, with_slot st k (SDone i), [(k, i)])
      | Some _ => (Some InvalidStateError, st, [])
      | None => (Some (AttributeError "_response"), st, [])
      end
  | None => (Some (AttributeError "_response"), st, [])
  end.

(** An inbound event: [interaction.type.value] and the interaction. *)
Record event := mkEvent { ev_type : Z; ev_interaction : Interaction }.

(** [Bot._internal_interaction_handler], modal branch: it reads
    [self.bot], an attribute a [Bot] does not have. Its other branches do
    not touch the modal table (command handlers that send or reset
    modals are the separate steps below). *)
Definition bot_listener (ev : event) (st : MState)
    : option exn * MState * list (nat * Interaction) :=
  if Z.eqb (ev_type ev) 5 then
    match ms_modals st with
    | None => (Some (AttributeError "'Bot' object has no attribute 'bot'"), st, [])
    | Some _ =>
        match dict_get "custom_id" (i_data (ev_interaction ev)) with
        | None => (Some KeyError, st, [])
        | Some _ => (Some (AttributeError "'Bot' object has no attribute 'bot'"), st, [])
        end
    end
  else (None, st, []).

(** [Cog._internal_interaction_handler], modal branch; its autocomplete
    and command branches do not touch the modal table. *)
Definition cog_listener (ev : event) (st : MState)
    : option exn * MState * list (nat * Interaction) :=
  if Z.eqb (ev_type ev) 5 then
    let table := match ms_modals st with Some t => t | None => ∅ end in
    let st := with_modals st table in
    match dict_get "custom_id" (i_data (ev_interaction ev)) with
    | None => (Some KeyError, st, [])
    | Some (JStr c) =>
        match table !! c with
        | Some m => set_result m (ev_interaction ev) (with_modals st (delete c table))
        | None => (None, st, [])
        end
    | Some (JList _) | Some (JObj _) => (Some (TypeError "unhashable type"), st, [])
    | Some _ => (None, st, [])
    end
  else (None, st, []).

(** [Client.dispatch('interaction', ...)]: the listeners registered for
    [on_interaction] run one after the other; an exception in one is
    reported and does not stop the others. The bot's listener is
    registered first, then one per loaded [Cog]. *)
Fixpoint run_listeners (ls : list (event -> MState -> option exn * MState * list (nat * Interaction)))
    (ev : event) (st : MState) : MState * list (nat * Interaction) :=
  match ls with
  | [] => (st, [])
  | l :: r =>
      let '(_, st1, f1) := l ev st in
      let '(st2, f2) := run_listeners r ev st1 in
      (st2, f1 ++ f2)
  end.

Definition dispatch (ncogs : nat) (ev : event) (st : MState) : MState * list (nat * Interaction) :=
  run_listeners (bot_listener :: repeat cog_listener ncogs) ev st.

(** [InteractionResponse.send_modal]: [_modals[modal.custom_id] = modal]. *)
Definition send_modal (c : string) (m : nat) (st : MState) : MState :=
  with_modals st (<[c := m]> (match ms_modals st with Some t => t | None => ∅ end)).

(** [Modal.__init__] allocates the future. *)
Definition new_modal (m : nat) (st : MState) : MState :=
  mkMState (ms_modals st) (<[m := ms_next st]> (ms_response st))
           (<[ms_next st := SPending]> (ms_slots st)) (S (ms_next st)).

(** [Modal.reset]: cancel a future that is not done, install a new one. *)
Definition reset (m : nat) (st : MState) : MState :=
  match ms_response st !! m with
  | Some k =>
      let st := match ms_slots st !! k with
                | Some SPending => with_slot st k (SFailed (BaseOnly "CancelledError"))
                | _ => st
                end in
      new_modal m st
  | None => st
  end.

(** [Modal.wait] timing out: [asyncio.wait_for] cancels the pending
    future (the modal stays in [_modals]). *)
Definition wait_timeout (m : nat) (st : MState) : MState :=
  match ms_response st !! m with
  | Some k =>
      match ms_slots st !! k with
      | Some SPending => with_slot st k (SFailed (BaseOnly "CancelledError"))
      | _ => st
      end
  | None => st
  end.

Inductive step :=
| StDispatch (ev : event)
| StSend (c : string) (m : nat)
| StNew (m : nat)
| StReset (m : nat)
| StTimeout (m : nat).

Definition run_step (ncogs : nat) (s : step) (st : MState) : MState * list (nat * Interaction) :=
  match s with
  | StDispatch ev => dispatch ncogs ev st
  | StSend c m => (send_modal c m st, [])
  | StNew m => (new_modal m st, [])
  | StReset m => (reset m st, [])
  | StTimeout m => (wait_timeout m st, [])
  end.

(** A run, with the log of every slot fulfilment in order. *)
Fixpoint run (ncogs : nat) (steps : list step) (st : MState) : MState * list (nat * Interaction) :=
  match steps with
  | [] => (st, [])
  | s :: r =>
      let '(st1, f1) := run_step ncogs s st in
      let '(st2, f2) := run ncogs r st1 in
      (st2, f1 ++ f2)
  end.

(** Slots from [ms_next] on are unused. *)
Definition fresh (st : MState) : Prop :=
  forall k, ms_next st <= k -> ms_slots st !! k = None.

(** ** [Bot.sync_commands] (bot.py 144-169)

    Command objects live in a heap indexed by object identity, so a
    command reachable from two attributes of a cog is one object with one
    [_parameter_descriptions]. A cog is a list of attribute values in
    [inspect.getmembers] order; references absent from the heap are
    attribute values that are not [Command]s and are filtered out. The
    assignments [cmd.cog = cog] and [cog._commands[cmd.name] = cmd] are
    not read by the payload builders and are left out. *)

Inductive command :=
| CSlash (sc : SlashCommand)
| CMessage (name : string) (guild_id : option Z)
| CUser (name : string) (guild_id : option Z).

Record cmd_obj := mkCmdObj {
  co_cmd : command;
  (** [self._parameter_descriptions] of a [SlashCommand]. *)
  co_descs : descs
}.

Abbreviation heap := (gmap nat cmd_obj).

Record cog_entry := mkCog {
  (** [isinstance(cog, Cog)] *)
  is_slash_cog : bool;
  cog_members : list nat
}.

Definition cmd_guild_id (c : command) : option Z :=
  match c with
  | CSlash sc => sc_guild_id sc
  | CMessage _ g | CUser _ g => g
  end.

(** [ContextMenuCommand._build_command_payload] (core.py 331-338), with
    [_type] 3 for [MessageCommand] and 2 for [UserCommand]. *)
Definition context_menu_payload (name : string) (typ : Z) (guild_id : option Z) : dict :=
  let payload := [("name", JStr name); ("type", JInt typ)] in
  match guild_id with
  | Some g => dict_set "guild_id" (JInt g) payload
  | None => payload
  end.

(** [body = cmd._build_command_payload()] on one command object. *)
Definition build_body (o : cmd_obj) : (exn + json) * cmd_obj :=
  match co_cmd o with
  | CSlash sc =>
      let '(r, d') := build_command_payload sc (co_descs o) in
      (match r with inl e => inl e | inr p => inr (JObj p) end, mkCmdObj (co_cmd o) d')
  | CMessage name g => (inr (JObj (context_menu_payload name 3 g)), o)
  | CUser name g => (inr (JObj (context_menu_payload name 2 g)), o)
  end.

(** [command_payloads[cmd.guild_id].append(body)] on a [defaultdict(list)],
    kept in key insertion order. *)
Fixpoint group_add (g : option Z) (b : json) (acc : list (option Z * list json))
    : list (option Z * list json) :=
  match acc with
  | [] => [(g, [b])]
  | (g', l) :: r =>
      if decide (g = g') then (g', l ++ [b]) :: r else (g', l) :: group_add g b r
  end.

(** The inner loop over [inspect.getmembers(cog, ...)]. *)
Fixpoint sync_members (ms : list nat) (acc : list (option Z * list json)) (h : heap)
    : (exn + list (option Z * list json)) * heap :=
  match ms with
  | [] => (inr acc, h)
  | i :: r =>
      match h !! i with
      | None => sync_members r acc h
      | Some o =>
          let '(res, o') := build_body o in
          let h := <[i := o']> h in
          match res with
          | inl e => (inl e, h)
          | inr body => sync_members r (group_add (cmd_guild_id (co_cmd o)) body acc) h
          end
      end
  end.

(** The outer loop over [self.cogs.values()]. *)
Fixpoint sync_cogs (cogs : list cog_entry) (acc : list (option Z * list json)) (h : heap)
    : (exn + list (option Z * list json)) * heap :=
  match cogs with
  | [] => (inr acc, h)
  | c :: r =>
      if is_slash_cog c then
        match sync_members (cog_members c) acc h with
        | (inl e, h') => (inl e, h')
        | (inr acc', h') => sync_cogs r acc' h'
        end
      else sync_cogs r acc h
  end.

(** The HTTP calls made by a sync. *)
Inductive upload :=
| BulkUpsertGlobal (application_id : Z) (payload : list json)
| BulkUpsertGuild (application_id : Z) (guild_id : Z) (payload : list json).

(** [command_payloads.pop(None, [])] and the uploads that follow. *)
Definition uploads (app : Z) (acc : list (option Z * list json)) : list upload :=
  let global_commands := match list_find (fun e => e.1 = None) acc with
                         | Some (_, (_, l)) => l
                         | None => []
                         end in
  (match global_commands with [] => [] | _ => [BulkUpsertGlobal app global_commands] end) ++
  flat_map (fun e => match e.1 with
                     | Some g => [BulkUpsertGuild app g e.2]
                     | None => []
                     end) acc.

(** [Bot.sync_commands]; [self.application_id] is [None] or [0] before
    login. *)
Definition sync_commands (application_id : option Z) (cogs : list cog_entry) (h : heap)
    : (exn + list upload) * heap :=
  match application_id with
  | None => (inl (RuntimeError "sync_commands must be called after `run`, `start` or `login`"), h)
  | Some app =>
      if Z.eqb app 0
      then (inl (RuntimeError "sync_commands must be called after `run`, `start` or `login`"), h)
      else
        let '(r, h') := sync_cogs cogs [] h in
        (match r with inl e => inl e | inr acc => inr (uploads app acc) end, h')
  end.

(** ** Predicates and examples used in the statements *)

(** *** Built options *)

Definition required_entry (p : param) : option json :=
  match p_default p with None => Some (JBool true) | Some _ => None end.

Definition is_required_param (p : param) : bool :=
  match p_default p with None => true | Some _ => false end.

(** The options list of a payload, as the dicts it holds. *)
Definition payload_options (payload : dict) : list dict :=
  match dict_get "options" payload with
  | Some (JList l) => flat_map (fun j => match j with JObj kv => [kv] | _ => [] end) l
  | _ => []
  end.

(** *** Build-time errors *)

Definition is_err {A} (r : exn + A) : bool := match r with inl _ => true | inr _ => false end.










(** A command [channels(self, ctx, ch: Union[TextChannel, VoiceChannel],
    n: int = 3)] with [@describe(ch="target")]. *)
Definition ex_channels : SlashCommand :=
  mkSlash "channels" "No description provided" None
    [mkParam "ch" (Ann_union [T_TextChannel; T_VoiceChannel]) None;
     mkParam "n" (Ann_type T_int) (Some (JInt 3))]
    [("ch", "target")].


(** The docstring example of [Range]:
    [number(self, ctx, num: Range[0, 10], other_num: Range[10])]. *)
Definition ex_range : SlashCommand :=
  mkSlash "number" "No description provided" None
    [mkParam "num" (Ann_range (mkRange (Some (NInt 0)) (NInt 10))) None;
     mkParam "other_num" (Ann_range (mkRange None (NInt 10))) None] [].

(** An invocation of [pog] with a user option [u] = ["123"] whose
    side-table only holds user ["124"]. *)
Definition ex_missing_user : Interaction :=
  mkInteraction true
    [("name", JStr "pog");
     ("options", JList [JObj [("name", JStr "u"); ("type", JInt 6); ("value", JStr "123")]]);
     ("resolved", JObj [("users", JObj [("124", JObj [])]);
                        ("members", JObj [("124", JObj [])])])].

(** *** The modal correlator *)

(** Every logged fulfilment is the final value of its slot, no slot is
    logged twice, and fresh slots are unused. *)
Definition Inv (st : MState) (log : list (nat * Interaction)) : Prop :=
  fresh st /\ NoDup (map fst log) /\
  forall k x, In (k, x) log -> ms_slots st !! k = Some (SDone x).

(** No modal is pending under the identifier [c]. *)
Definition NoC (c : string) (st : MState) : Prop :=
  exists t, ms_modals st = Some t /\ t !! c = None.

Definition ex_modal_state : MState :=
  mkMState (Some {["abc" := 0]}) {[0 := 0]} {[0 := SPending]} 1.

Definition ex_submit : event :=
  mkEvent 5 (mkInteraction true [("custom_id", JStr "abc")]).

(** *** The payload builder's state *)

(** A builder step that only reads descriptions (inserting defaults):
    it only extends the state, and rerun on any extension of its final
    state it returns the same result and changes nothing. *)
Definition Stable {A} (c : M A) : Prop :=
  forall d r d', c d = (r, d') -> d ⊆ d' /\ forall e, d' ⊆ e -> c e = (r, e).

(** ** Python dicts keyed by strings, with any value type *)

Fixpoint pyd_get {V} (k : string) (d : list (string * V)) : option V :=
  match d with
  | [] => None
  | (k', v) :: r => if String.eqb k k' then Some v else pyd_get k r
  end.

(** [d[k] = v]: updates in place or appends. *)
Fixpoint pyd_set {V} (k : string) (v : V) (d : list (string * V)) : list (string * V) :=
  match d with
  | [] => [(k, v)]
  | (k', v') :: r => if String.eqb k k' then (k, v) :: r else (k', v') :: pyd_set k v r
  end.

(** [d.pop(k, None)], the result dropped. *)
Fixpoint pyd_pop {V} (k : string) (d : list (string * V)) : list (string * V) :=
  match d with
  | [] => []
  | (k', v') :: r => if String.eqb k k' then r else (k', v') :: pyd_pop k r
  end.

(** ** [TextInput] and [Modal] (modal.py) *)

(** A [TextInput]; [style] is [self.style.value]. *)
Record TextInput := mkTextInput {
  ti_style : Z;
  ti_custom_id : string;
  ti_label : string;
  ti_required : bool;
  ti_default_value : option string;
  ti_placeholder : option string;
  ti_min_length : option Z;
  ti_max_length : option Z
}.

(** [TextInput.__init__]. A [custom_id] left [MISSING] is
    [os.urandom(16).hex()], passed in as [rnd]. *)
Definition TextInput_new (label : string) (style : Z) (custom_id : option string) (rnd : string)
    (min_length max_length : option Z) (required : bool)
    (default_value placeholder : option string) : exn + TextInput :=
  let custom_id := match custom_id with Some c => c | None => rnd end in
  let? _ := match min_length with
            | Some m => if (m <? 0)%Z
                        then inl (ValueError "min_length must be greater or equal to 0")
                        else inr tt
            | None => inr tt
            end in
  let? _ := match max_length with
            | Some m => if ((4000 <? m) || (m <? 1))%Z
                        then inl (ValueError "max_length must be lower or equal to 4000 and greater or equal to 1")
                        else inr tt
            | None => inr tt
            end in
  inr (mkTextInput style custom_id label required default_value placeholder min_length max_length).

(** [TextInput.to_dict] *)
Definition TextInput_to_dict (t : TextInput) : dict :=
  let data := [("type", JInt 4); ("style", JInt (ti_style t)); ("custom_id", JStr (ti_custom_id t));
               ("label", JStr (ti_label t)); ("required", JBool (ti_required t))] in
  let data := match ti_placeholder t with Some p => dict_set "placeholder" (JStr p) data | None => data end in
  let data := match ti_default_value t with Some v => dict_set "value" (JStr v) data | None => data end in
  let data := match ti_min_length t with Some m => dict_set "min_length" (JInt m) data | None => data end in
  let data := match ti_max_length t with Some m => dict_set "max_length" (JInt m) data | None => data end in
  data.

(** The fields of a [Modal] other than its future ([_response], in the
    correlator state above): [_items] maps custom ids to items. *)
Record Modal := mkModal {
  md_custom_id : string;
  md_title : string;
  md_items : list (string * TextInput)
}.

(** [{item.custom_id: item for item in items}] *)
Definition items_dict (items : list TextInput) : list (string * TextInput) :=
  fold_left (fun d it => pyd_set (ti_custom_id it) it d) items [].

(** [Modal.__init__]; [items] [MISSING] is the empty list. *)
Definition Modal_new (title : string) (custom_id : option string) (rnd : string)
    (items : list TextInput) : Modal :=
  mkModal (match custom_id with Some c => c | None => rnd end) title (items_dict items).

Definition add_item (m : Modal) (item : TextInput) : Modal :=
  mkModal (md_custom_id m) (md_title m) (pyd_set (ti_custom_id item) item (md_items m)).

Definition remove_item (m : Modal) (item : TextInput) : Modal :=
  mkModal (md_custom_id m) (md_title m) (pyd_pop (ti_custom_id item) (md_items m)).

Definition get_item (m : Modal) (custom_id : string) : option TextInput :=
  pyd_get custom_id (md_items m).

(** The action row [Modal.to_dict] emits for one item. *)
Definition item_row (item : TextInput) : json :=
  JObj [("type", JInt 1); ("components", JList [JObj (TextInput_to_dict item)])].

(** [Modal.to_dict]: one action row per item, in [_items] order. *)
Definition Modal_to_dict (m : Modal) : dict :=
  [("custom_id", JStr (md_custom_id m)); ("title", JStr (md_title m));
   ("components", JList (map (fun kv => item_row kv.2) (md_items m)))].

(** A call of [add_item] or [remove_item] on a modal. *)
Inductive item_op := OpAdd (item : TextInput) | OpRemove (item : TextInput).

Definition apply_item_op (m : Modal) (op : item_op) : Modal :=
  match op with OpAdd it => add_item m it | OpRemove it => remove_item m it end.

(** A modal as user code can leave it: constructed, then edited by a
    sequence of [add_item] and [remove_item] calls. *)
Definition modal_after (title : string) (custom_id : option string) (rnd : string)
    (items : list TextInput) (ops : list item_op) : Modal :=
  fold_left apply_item_op ops (Modal_new title custom_id rnd items).

(** *** [Modal.parse_interaction] on JSON data *)

(** [x[k]] with a string key. *)
Definition py_getitem_str (x : json) (k : string) : exn + json :=
  match x with
  | JObj kv => match dict_get k kv with Some v => inr v | None => inl KeyError end
  | _ => inl (TypeError "indices must be integers")
  end.

(** [x[0]]. JSON object keys are strings, so [0] is never one of them. *)
Definition py_getitem_0 (x : json) : exn + json :=
  match x with
  | JList (y :: _) => inr y
  | JList [] => inl IndexError
  | JStr EmptyString => inl IndexError
  | JStr (String c _) => inr (JStr (String c EmptyString))
  | JObj _ => inl KeyError
  | _ => inl (TypeError "object is not subscriptable")
  end.

(** [for d in x]: a list yields its items, a dict its keys, a string its
    characters. *)
Definition py_iter (x : json) : exn + list json :=
  match x with
  | JList l => inr l
  | JObj kv => inr (map (fun kv => JStr kv.1) kv)
  | JStr s => inr (map (fun c => JStr (String c EmptyString)) (String.list_ascii_of_string s))
  | _ => inl (TypeError "object is not iterable")
  end.

(** The numeric value of [int], [bool] and [float] keys, which compare
    and hash alike. *)
Definition json_number (x : json) : option Q :=
  match x with
  | JInt z => Some (inject_Z z)
  | JBool b => Some (if b then 1 else 0)%Q
  | JFloat q => Some q
  | _ => None
  end.

(** [==] on hashable JSON keys. *)
Definition py_key_eq (a b : json) : bool :=
  match a, b with
  | JNull, JNull => true
  | JStr s, JStr t => String.eqb s t
  | _, _ => match json_number a, json_number b with
            | Some p, Some q => Qeq_bool p q
            | _, _ => false
            end
  end.

(** [d[k] = v] on a dict with JSON keys: lists and dicts are unhashable;
    an equal key keeps its place and its first spelling. *)
Fixpoint jd_set (k v : json) (d : list (json * json)) : list (json * json) :=
  match d with
  | [] => [(k, v)]
  | (k', v') :: r => if py_key_eq k k' then (k', v) :: r else (k', v') :: jd_set k v r
  end.

Definition jd_insert (k v : json) (d : list (json * json)) : exn + list (json * json) :=
  match k with
  | JList _ | JObj _ => inl (TypeError "unhashable type")
  | _ => inr (jd_set k v d)
  end.

Fixpoint parse_rows (rows : list json) (acc : list (json * json)) : exn + list (json * json) :=
  match rows with
  | [] => inr acc
  | d :: r =>
      let? k := (let? cs := py_getitem_str d "components" in
                 let? c0 := py_getitem_0 cs in py_getitem_str c0 "custom_id") in
      let? v := (let? cs := py_getitem_str d "components" in
                 let? c0 := py_getitem_0 cs in py_getitem_str c0 "value") in
      let? acc := jd_insert k v acc in
      parse_rows r acc
  end.

(** [Modal.parse_interaction]:
    [dict((d['components'][0]['custom_id'], d['components'][0]['value'])
          for d in interaction.data['components'])]. *)
Definition parse_interaction (i : Interaction) : exn + list (json * json) :=
  let? comps := py_getitem_str (JObj (i_data i)) "components" in
  let? rows := py_iter comps in
  parse_rows rows [].

(** A modal submission row as Discord sends it: an action row holding
    one text input with its custom id and value. *)
Definition submission_row (cv : string * string) : json :=
  JObj [("type", JInt 1);
        ("components", JList [JObj [("type", JInt 4); ("custom_id", JStr cv.1); ("value", JStr cv.2)]])].

(** *** The modal's future, in the correlator state *)

(** [Modal.is_done] *)
Definition modal_is_done (m : nat) (st : MState) : bool :=
  match ms_response st !! m with
  | Some k => match ms_slots st !! k with
              | Some (SDone _) | Some (SFailed _) => true
              | _ => false
              end
  | None => false
  end.

(** [Modal.response]: [RuntimeError] while the future is not done;
    otherwise [parse_interaction(self._response.result())], where
    [result()] raises the exception a failed future holds. *)
Definition modal_response (m : nat) (st : MState) : exn + list (json * json) :=
  match ms_response st !! m with
  | Some k =>
      match ms_slots st !! k with
      | Some (SDone i) => parse_interaction i
      | Some (SFailed e) => inl e
      | _ => inl (RuntimeError "Modal has not received a response.")
      end
  | None => inl (AttributeError "_response")
  end.

(** *** Predicates used in the statements below *)

(** The bounds [TextInput.__init__] checks. *)
Definition text_input_bounds (min_length max_length : option Z) : Prop :=
  (forall m, min_length = Some m -> (0 <= m)%Z) /\
  (forall m, max_length = Some m -> (1 <= m <= 4000)%Z).


(** The items of a modal are keyed by their own custom ids, without
    duplicates. *)
Definition items_ok (d : list (string * TextInput)) : Prop :=
  NoDup (map fst d) /\ Forall (fun kv => ti_custom_id kv.2 = kv.1) d.

(** The pair [parse_interaction] reads from a [submission_row]. *)
Definition submission_pair (cv : string * string) : json * json := (JStr cv.1, JStr cv.2).


(** ** Message parameters (_patch.py 22-126) *)

(** An argument that may be left [MISSING]. *)
Inductive marg (A : Type) := Missing | Given (a : A).
Arguments Missing {A}.
Arguments Given {A} a.

Definition is_given {A} (x : marg A) : bool :=
  match x with Given _ => true | Missing => false end.

(** The discord.py objects the code hands through, with the methods and
    attributes it uses on them. *)
Class DiscordObjects := {
  Embed : Type;
  File : Type;
  View : Type;
  AllowedMentions : Type;
  Attachment : Type;
  embed_to_dict : Embed -> dict;
  view_to_components : View -> json;
  attachment_to_dict : Attachment -> dict;
  allowed_mentions_to_dict : AllowedMentions -> dict;
  allowed_mentions_merge : AllowedMentions -> AllowedMentions -> AllowedMentions;
  allowed_mentions_truthy : AllowedMentions -> bool
}.

Section MessageParameters.
Context `{DiscordObjects}.

(** The keyword arguments of [handle_message_parameters]; [content] is a
    value whose [str] is taken ([LNone] is [None]); [username] and
    [avatar_url] are strings. *)
Record hmp_args := mkHmpArgs {
  h_content : marg lit;
  h_username : marg string;
  h_avatar_url : marg string;
  h_tts : bool;
  h_ephemeral : bool;
  h_file : marg File;
  h_files : marg (list File);
  h_embed : marg (option Embed);
  h_embeds : marg (list Embed);
  h_view : marg (option View);
  h_allowed_mentions : marg AllowedMentions;
  h_previous_allowed_mentions : option AllowedMentions;
  h_type : marg Z;
  h_attachments : marg (list Attachment);
  h_modal : marg Modal
}.

(** All arguments at their defaults. *)
Definition hmp_default : hmp_args :=
  mkHmpArgs Missing Missing Missing false false Missing Missing Missing Missing Missing
            Missing None Missing Missing Missing.

(** A multipart form entry: [payload_json] holds [to_json(payload)]; a
    file entry holds [file.fp], [file.filename] and the content type
    ['application/octet-stream']. *)
Inductive mpart :=
| MPJson (name : string) (payload : dict)
| MPFile (name : string) (file : File).

Definition mpart_name (p : mpart) : string :=
  match p with MPJson n _ | MPFile n _ => n end.

(** [ExecuteWebhookParameters(payload, multipart, files)]; [None] is
    Python's [None]. *)
Record ExecuteWebhookParameters := mkEWP {
  ewp_payload : option dict;
  ewp_multipart : option (list mpart);
  ewp_files : option (marg (list File))
}.

(** [if x:] on a string argument that may be [MISSING] (falsy). *)
Definition str_truthy (x : marg string) : option string :=
  match x with Given s => if String.eqb s "" then None else Some s | Missing => None end.

(** [handle_message_parameters] *)
Definition handle_message_parameters (a : hmp_args) : exn + ExecuteWebhookParameters :=
  match h_modal a with
  | Given modal =>
      inr (mkEWP (Some [("type", JInt 9); ("data", JObj (Modal_to_dict modal))]) None None)
  | Missing =>
  if is_given (h_files a) && is_given (h_file a)
  then inl (TypeError "Cannot mix file and files keyword arguments.") else
  if (is_given (h_file a) || is_given (h_files a)) && is_given (h_attachments a)
  then inl (TypeError "Cannot mix file/files and attachments arguments.") else
  if is_given (h_embeds a) && is_given (h_embed a)
  then inl (TypeError "Cannot mix embed and embeds keyword arguments.") else
  let? payload :=
    match h_embeds a with
    | Given embeds =>
        if (10 <? length embeds)%nat then inl (OtherException "InvalidArgument")
        else inr (dict_set "embeds" (JList (map (fun e => JObj (embed_to_dict e)) embeds)) [])
    | Missing => inr []
    end in
  let payload :=
    match h_embed a with
    | Given None => dict_set "embeds" (JList []) payload
    | Given (Some e) => dict_set "embeds" (JList [JObj (embed_to_dict e)]) payload
    | Missing => payload
    end in
  let payload :=
    match h_content a with
    | Given LNone => dict_set "content" JNull payload
    | Given c => dict_set "content" (JStr (py_str c)) payload
    | Missing => payload
    end in
  let payload :=
    match h_view a with
    | Given (Some v) => dict_set "components" (view_to_components v) payload
    | Given None => dict_set "components" (JList []) payload
    | Missing => payload
    end in
  let payload := dict_set "tts" (JBool (h_tts a)) payload in
  let payload :=
    match str_truthy (h_avatar_url a) with
    | Some u => dict_set "avatar_url" (JStr u) payload | None => payload end in
  let payload :=
    match str_truthy (h_username a) with
    | Some u => dict_set "username" (JStr u) payload | None => payload end in
  let payload := if h_ephemeral a then dict_set "flags" (JInt 64) payload else payload in
  let payload :=
    match h_allowed_mentions a, h_previous_allowed_mentions a with
    | Given am, prev =>
        if allowed_mentions_truthy am then
          match prev with
          | Some p => dict_set "allowed_mentions" (JObj (allowed_mentions_to_dict (allowed_mentions_merge p am))) payload
          | None => dict_set "allowed_mentions" (JObj (allowed_mentions_to_dict am)) payload
          end
        else
          match prev with
          | Some p => dict_set "allowed_mentions" (JObj (allowed_mentions_to_dict p)) payload
          | None => payload
          end
    | Missing, Some p => dict_set "allowed_mentions" (JObj (allowed_mentions_to_dict p)) payload
    | Missing, None => payload
    end in
  let payload :=
    match h_attachments a with
    | Given l => dict_set "attachments" (JList (map (fun x => JObj (attachment_to_dict x)) l)) payload
    | Missing => payload
    end in
  let payload :=
    match h_type a with
    | Given t => [("type", JInt t); ("data", JObj payload)]
    | Missing => payload
    end in
  let files := match h_file a with Given f => Given [f] | Missing => h_files a end in
  match files with
  | Given ((f :: _) as l) =>
      let parts :=
        if Nat.eqb (length l) 1 then [MPFile "file" f]
        else imap (fun index file => MPFile ("file" +:+ pretty index) file) l in
      inr (mkEWP None (Some (MPJson "payload_json" payload :: parts)) (Some files))
  | _ => inr (mkEWP (Some payload) (Some []) (Some files))
  end
  end.

(** The form field names of the files: ["file"] for one,
    ["file0"], ["file1"], ... for more. *)
Definition file_part_names (n : nat) : list string :=
  if Nat.eqb n 1 then ["file"] else map (fun i => "file" +:+ pretty i) (seq 0 n).

(** The JSON payload a request carries: [payload], or the
    [payload_json] entry that opens the multipart form. *)
Definition ewp_json_payload (p : ExecuteWebhookParameters) : option dict :=
  match ewp_payload p with
  | Some d => Some d
  | None => match ewp_multipart p with Some (MPJson _ d :: _) => Some d | _ => None end
  end.

End MessageParameters.

(** ** [InteractionResponse] (_patch.py 145-275) and [Context] (context.py) *)

Section Responses.
Context `{DiscordObjects}.

(** The keyword arguments of [send_message]; [content] defaults to
    [None] ([LNone]). *)
Record send_args := mkSendArgs {
  s_content : lit;
  s_embed : marg Embed;
  s_embeds : marg (list Embed);
  s_file : marg File;
  s_files : marg (list File);
  s_view : marg View;
  s_tts : bool;
  s_ephemeral : bool;
  s_allowed_mentions : marg AllowedMentions
}.

(** The response of one interaction: the [_responded] flag, the
    connection's modal table and futures, the interaction callbacks made
    ([create_interaction_response] requests that returned) and the
    follow-up messages sent. *)
Record IRState := mkIR {
  ir_responded : bool;
  ir_modals : MState;
  ir_callbacks : list ExecuteWebhookParameters;
  ir_followups : list (marg lit * send_args)
}.

Definition with_responded (st : IRState) : IRState :=
  mkIR true (ir_modals st) (ir_callbacks st) (ir_followups st).

(** [InteractionType]: [ping] 1, [application_command] 2, [component] 3;
    [InteractionResponseType]: [pong] 1, [channel_message] 4,
    [deferred_channel_message] 5, [deferred_message_update] 6,
    [message_update] 7. *)
Definition InteractionResponded : exn := OtherException "InteractionResponded".
Definition HTTPException : exn := OtherException "HTTPException".

(** [await adapter.create_interaction_response(...)]; [ok] is whether
    the request succeeded, a failed one raising [HTTPException]. *)
Definition callback (ok : bool) (p : ExecuteWebhookParameters) (st : IRState) : option exn * IRState :=
  if ok then (None, mkIR (ir_responded st) (ir_modals st) (ir_callbacks st ++ [p]) (ir_followups st))
  else (Some HTTPException, st).

Definition then_responded (r : option exn * IRState) : option exn * IRState :=
  match r with
  | (None, st) => (None, with_responded st)
  | r => r
  end.

(** The keyword arguments of [edit_message]. *)
Record edit_args := mkEditArgs {
  e_content : marg lit;
  e_embed : marg (option Embed);
  e_embeds : marg (list Embed);
  e_attachments : marg (list Attachment);
  e_view : marg (option View)
}.

(** [send_message]. Setting the view's timeout and storing the view in
    the connection state do not touch the response and are left out. *)
Definition send_message (ok : bool) (a : send_args) (st : IRState) : option exn * IRState :=
  if ir_responded st then (Some InteractionResponded, st) else
  let args := mkHmpArgs (Given (s_content a)) Missing Missing (s_tts a) (s_ephemeral a)
                (s_file a) (s_files a)
                (match s_embed a with Given e => Given (Some e) | Missing => Missing end) (s_embeds a)
                (match s_view a with Given v => Given (Some v) | Missing => Missing end)
                (s_allowed_mentions a) None (Given 4%Z) Missing Missing in
  match handle_message_parameters args with
  | inl e => (Some e, st)
  | inr payload => then_responded (callback ok payload st)
  end.

(** [defer]: the payload is built with [type = defer_type or MISSING]
    and only sent when [defer_type] is set. *)
Definition defer (ok : bool) (itype : Z) (ephemeral : bool) (st : IRState) : option exn * IRState :=
  if ir_responded st then (Some InteractionResponded, st) else
  let defer_type := if Z.eqb itype 3 then 6%Z else if Z.eqb itype 2 then 5%Z else 0%Z in
  let args := mkHmpArgs Missing Missing Missing false ephemeral Missing Missing Missing Missing Missing
                Missing None (if Z.eqb defer_type 0 then Missing else Given defer_type) Missing Missing in
  match handle_message_parameters args with
  | inl e => (Some e, st)
  | inr payload =>
      if Z.eqb defer_type 0 then (None, st) else then_responded (callback ok payload st)
  end.

(** [pong] *)
Definition pong (ok : bool) (itype : Z) (st : IRState) : option exn * IRState :=
  if ir_responded st then (Some InteractionResponded, st) else
  if Z.eqb itype 1 then
    match handle_message_parameters (mkHmpArgs Missing Missing Missing false false Missing Missing Missing Missing
                                       Missing Missing None (Given 1%Z) Missing Missing) with
    | inl e => (Some e, st)
    | inr payload => then_responded (callback ok payload st)
    end
  else (None, st).

(** [edit_message]; storing the view is left out as in [send_message]. *)
Definition edit_message (ok : bool) (itype : Z) (a : edit_args) (st : IRState) : option exn * IRState :=
  if ir_responded st then (Some InteractionResponded, st) else
  if negb (Z.eqb itype 3) then (None, st) else
  let args := mkHmpArgs (e_content a) Missing Missing false false Missing Missing (e_embed a) (e_embeds a)
                (e_view a) Missing None (Given 7%Z) (e_attachments a) Missing in
  match handle_message_parameters args with
  | inl e => (Some e, st)
  | inr payload => then_responded (callback ok payload st)
  end.

(** [InteractionResponse.send_modal]: the modal object [m] with the
    fields [md] is registered under its custom id before anything else. *)
Definition ir_send_modal (ok : bool) (m : nat) (md : Modal) (st : IRState) : option exn * IRState :=
  let st := mkIR (ir_responded st) (send_modal (md_custom_id md) m (ir_modals st))
                 (ir_callbacks st) (ir_followups st) in
  if ir_responded st then (Some InteractionResponded, st) else
  match handle_message_parameters (mkHmpArgs Missing Missing Missing false false Missing Missing Missing Missing
                                     Missing Missing None Missing Missing (Given md)) with
  | inl e => (Some e, st)
  | inr payload => then_responded (callback ok payload st)
  end.

(** A call on the response object. *)
Inductive ir_call :=
| CallSendMessage (a : send_args)
| CallDefer (ephemeral : bool)
| CallPong
| CallEditMessage (a : edit_args)
| CallSendModal (m : nat) (md : Modal).

Definition ir_step (itype : Z) (ok : bool) (c : ir_call) (st : IRState) : option exn * IRState :=
  match c with
  | CallSendMessage a => send_message ok a st
  | CallDefer e => defer ok itype e st
  | CallPong => pong ok itype st
  | CallEditMessage a => edit_message ok itype a st
  | CallSendModal m md => ir_send_modal ok m md st
  end.

(** A sequence of calls, each with the outcome of its request; the
    exceptions raised are collected. *)
Fixpoint ir_run (itype : Z) (calls : list (ir_call * bool)) (st : IRState) : list (option exn) * IRState :=
  match calls with
  | [] => ([], st)
  | (c, ok) :: r =>
      let '(e, st1) := ir_step itype ok c st in
      let '(es, st2) := ir_run itype r st1 in
      (e :: es, st2)
  end.

(** Python truthiness of a value passed as [content]. *)
Definition lit_truthy (c : lit) : bool :=
  match c with
  | LInt z => negb (Z.eqb z 0)
  | LStr s => negb (String.eqb s "")
  | LBool b => b
  | LNone => false
  end.

(** A call of [Context.send] or [Context.defer]. [CtxSend content a]
    passes [content] (or leaves it [MISSING]) and the keyword arguments
    [a] of [send_message]; [CtxSendModal] passes [modal=]. *)
Inductive ctx_call :=
| CtxSend (content : marg lit) (a : send_args)
| CtxSendModal (m : nat) (md : Modal)
| CtxDefer (ephemeral : bool).

(** [Context.send] and [Context.defer]. A follow-up message goes through
    [interaction.followup.send], a webhook request outside the
    interaction callback, recorded when [ok]. The final
    [original_message()] fetch changes nothing here and is left out. *)
Definition ctx_step (itype : Z) (ok : bool) (c : ctx_call) (st : IRState) : option exn * IRState :=
  match c with
  | CtxSendModal m md => ir_send_modal ok m md st
  | CtxDefer e => defer ok itype e st
  | CtxSend content a =>
      if ir_responded st then
        if ok then (None, mkIR (ir_responded st) (ir_modals st) (ir_callbacks st)
                             (ir_followups st ++ [(content, a)]))
        else (Some HTTPException, st)
      else
        let content := match content with Given c => if lit_truthy c then c else LNone | Missing => LNone end in
        send_message ok (mkSendArgs content (s_embed a) (s_embeds a) (s_file a) (s_files a) (s_view a)
                                    (s_tts a) (s_ephemeral a) (s_allowed_mentions a)) st
  end.

Fixpoint ctx_run (itype : Z) (calls : list (ctx_call * bool)) (st : IRState) : list (option exn) * IRState :=
  match calls with
  | [] => ([], st)
  | (c, ok) :: r =>
      let '(e, st1) := ctx_step itype ok c st in
      let '(es, st2) := ctx_run itype r st1 in
      (e :: es, st2)
  end.

(** The response state is consistent: one callback has been made once
    [_responded] is set, none before. *)
Definition ir_inv (st : IRState) : Prop :=
  length (ir_callbacks st) = (if ir_responded st then 1 else 0)%nat.

End Responses.

(** Stand-ins for the discord.py objects: an embed, allowed mentions
    and an attachment are their dicts, a file its name, a view its
    components. *)
#[local] Instance ex_objects : DiscordObjects := {|
  Embed := dict;
  File := string;
  View := json;
  AllowedMentions := dict;
  Attachment := dict;
  embed_to_dict := fun d => d;
  view_to_components := fun j => j;
  attachment_to_dict := fun d => d;
  allowed_mentions_to_dict := fun d => d;
  allowed_mentions_merge := fun p d => d ++ p;
  allowed_mentions_truthy := fun d => match d with [] => false | _ => true end
|}.

Definition ex_response : IRState := mkIR false ex_modal_state [] [].

Definition ex_send_args : send_args :=
  mkSendArgs (LStr "hello") Missing Missing Missing (Given ["a.png"; "b.png"]) Missing false true Missing.

Definition ex_edit_args : edit_args :=
  mkEditArgs (Given (LStr "new")) (Given None) (Given []) Missing Missing.

Definition ex_hmp_args : hmp_args :=
  mkHmpArgs (Given (LStr "hi")) Missing Missing false true Missing (Given ["a.png"; "b.png"])
            Missing Missing Missing Missing None (Given 4%Z) Missing Missing.

(** ** [ContextMenuCommand._build_arguments] (core.py 340-343) *)

Definition context_menu_arguments (i : Interaction) : exn + list (string * argval) :=
  let? resolved := parse_resolved_data i (dict_get "resolved" (i_data i)) in
  let? t := match dict_get "target_id" (i_data i) with Some t => inr t | None => inl KeyError end in
  let? k := py_int t in
  match resolved !! k with
  | Some e => inr [("target", AVEntity e)]
  | None => inl KeyError
  end.

(** ** Command lookup and the listeners' command branches (bot.py 50-68,
    85-104; cog.py 61-91) *)

(** [cmd.name] *)
Definition command_name (c : command) : string :=
  match c with
  | CSlash sc => sc_name sc
  | CMessage n _ | CUser n _ => n
  end.

(** [d.get(key)] on a dict with string keys, [key] a JSON value: a string
    is looked up, a list or dict is unhashable, any other value equals no
    string key. *)
Definition py_get_str_key {V} (key : json) (d : list (string * V)) : exn + option V :=
  match key with
  | JStr s => inr (pyd_get s d)
  | JList _ | JObj _ => inl (TypeError "unhashable type")
  | _ => inr None
  end.

(** [cog._commands[cmd.name] = cmd] over the members of one cog, in the
    order [sync_commands] visits them. *)
Definition register_cog (c : cog_entry) (h : heap) (reg : list (string * nat)) : list (string * nat) :=
  fold_left (fun reg i => match h !! i with
                          | Some o => pyd_set (command_name (co_cmd o)) i reg
                          | None => reg
                          end) (cog_members c) reg.

(** The cogs of [self.cogs.values()] as the command lookup sees them:
    whether each is a [Cog], and its [_commands] after a sync that ran
    through all cogs, each cog starting from the empty dict [add_cog]
    gave it. *)
Definition sync_registry (cogs : list cog_entry) (h : heap) : list (bool * list (string * nat)) :=
  map (fun c => (is_slash_cog c, if is_slash_cog c then register_cog c h [] else [])) cogs.

(** [Bot.get_application_command]; a command object is truthy. *)
Fixpoint get_application_command (cogs : list (bool * list (string * nat))) (name : json)
    : exn + option nat :=
  match cogs with
  | [] => inr None
  | (is_cog, cmds) :: r =>
      if is_cog then
        let? c := py_get_str_key name cmds in
        match c with
        | Some x => inr (Some x)
        | None => get_application_command r name
        end
      else get_application_command r name
  end.

(** [Bot._internal_interaction_handler] after its modal branch (that one
    is [bot_listener]): the command found and the arguments it is invoked
    with, if any. [_build_arguments] runs before the [try] around the
    invocation. References in [_commands] are always in the heap. *)
Definition bot_command_branch (cogs : list (bool * list (string * nat))) (h : heap) (itype : Z)
    (i : Interaction) : exn + option (nat * list (string * argval)) :=
  if Z.eqb itype 5 then inr None else
  if negb (Z.eqb itype 2) then inr None else
  let? name := py_getitem_str (JObj (i_data i)) "name" in
  let? c := get_application_command cogs name in
  match c with
  | None => inr None
  | Some ref =>
      match h !! ref with
      | Some o =>
          let? params := match co_cmd o with
                         | CSlash _ => build_arguments i
                         | _ => context_menu_arguments i
                         end in
          inr (Some (ref, params))
      | None => inr None
      end
  end.

(** A command in a cog's [_commands], with its function's
    [_autocomplete_handlers_] (if the attribute is set): option name to
    the awaited handler call on the option's value, as its results. *)
Record cog_cmd := mkCogCmd {
  cc_command : command;
  cc_handlers : option (list (string * (json -> exn + list lit)))
}.

(** [[option for option in options if option.get("focused", None)]] *)
Fixpoint focused_options (l : list json) : exn + list json :=
  match l with
  | [] => inr []
  | o :: r =>
      let? d := match o with
                | JObj d => inr d
                | _ => inl (AttributeError "object has no attribute 'get'")
                end in
      let? rest := focused_options r in
      inr (if py_truthy (dict_get "focused" d) then o :: rest else rest)
  end.

Definition autocomplete_choice (o : lit) : json :=
  JObj [("name", JStr (py_str o)); ("value", JStr (py_str o))].

(** [interaction.response.send_autocomplete_result(payload)]. The
    patched [InteractionResponse] (_patch.py 145-275) defines no such
    method, so the call resolves on discord.py's own class, outside this
    repository: [None] when that class has no such attribute either, in
    which case the call raises [AttributeError]; [Some send] for the
    method it has. *)
Definition send_autocomplete_result (response : option (dict -> exn + unit)) (payload : dict)
    : exn + unit :=
  match response with
  | Some send => send payload
  | None => inl (AttributeError "'InteractionResponse' object has no attribute 'send_autocomplete_result'")
  end.

(** [Cog._internal_interaction_handler], autocomplete branch: the
    payload it sends. *)
Definition cog_autocomplete (response : option (dict -> exn + unit))
    (cmds : list (string * cog_cmd)) (data : dict) : exn + dict :=
  let? name := py_getitem_str (JObj data) "name" in
  let? command := py_get_str_key name cmds in
  let? options := py_getitem_str (JObj data) "options" in
  let? options := py_iter options in
  let? focused := focused_options options in
  let? option := match focused with o :: _ => inr o | [] => inl IndexError end in
  let? handlers := match command with
                   | None => inl (AttributeError "'NoneType' object has no attribute 'func'")
                   | Some c =>
                       match cc_handlers c with
                       | Some hs => inr hs
                       | None => inl (AttributeError "'function' object has no attribute '_autocomplete_handlers_'")
                       end
                   end in
  let? oname := py_getitem_str option "name" in
  let? handler := py_get_str_key oname handlers in
  let? handler := match handler with Some f => inr f | None => inl KeyError end in
  let? value := py_getitem_str option "value" in
  let? result := handler value in
  let payload := [("type", JInt 8); ("data", JObj [("choices", JList (map autocomplete_choice result))])] in
  let? _ := send_autocomplete_result response payload in
  inr payload.

(** [Cog._internal_interaction_handler] after its modal branch (that one
    is [cog_listener]): the autocomplete payload sent, if any. The
    command branch calls [command._build_arguments(ctx, interaction,
    state)] on a method that takes [interaction] and [state] only. *)
Definition cog_command_branch (response : option (dict -> exn + unit))
    (cmds : list (string * cog_cmd)) (itype : Z) (data : dict) : exn + option dict :=
  if Z.eqb itype 5 then inr None else
  if Z.eqb itype 4 then let? p := cog_autocomplete response cmds data in inr (Some p) else
  if negb (Z.eqb itype 2) then inr None else
  let? name := py_getitem_str (JObj data) "name" in
  let? command := py_get_str_key name cmds in
  match command with
  | None => inr None
  | Some _ => inl (TypeError "_build_arguments() takes 3 positional arguments but 4 were given")
  end.

(** *** Reference definitions used in the statements *)

(** The list without later repetitions, in order of first appearance. *)
Fixpoint dedup_first {A} `{EqDecision A} (l : list A) : list A :=
  match l with
  | [] => []
  | x :: r => x :: filter (fun y => y <> x) (dedup_first r)
  end.

(** The last member of [ms] in the heap whose command is named [n]. *)
Definition last_named (ms : list nat) (h : heap) (n : string) : option nat :=
  last (List.filter (fun i => match h !! i with
                              | Some o => String.eqb (command_name (co_cmd o)) n
                              | None => false
                              end) ms).

(** The last member named [n] of the first [Cog] that has one. *)
Fixpoint first_command (cogs : list cog_entry) (h : heap) (n : string) : option nat :=
  match cogs with
  | [] => None
  | c :: r =>
      if is_slash_cog c then
        match last_named (cog_members c) h n with
        | Some i => Some i
        | None => first_command r h n
        end
      else first_command r h n
  end.

(** A plain option as Discord sends it: name, type and value. *)
Definition plain_option (o : string * json * json) : json :=
  JObj [("name", JStr o.1.1); ("type", o.1.2); ("value", o.2)].

Definition ex_registry_heap : heap :=
  <[1 := mkCmdObj (CMessage "pin" None) ∅]> (<[2 := mkCmdObj (CUser "info" (Some 7%Z)) ∅]> ∅).

(** The bodies appended to [command_payloads[g]], in order, when the
    sync appends [(guild_id, body)] pairs [l]. *)
Definition bodies_for (g : option Z) (l : list (option Z * json)) : list json :=
  map snd (filter (fun gb => gb.1 = g) l).

(** *** Examples *)

(** The resolved data of two user options in a guild, shaped as Discord
    sends it: user objects, and member objects without their user. *)
Definition ex_users : dict :=
  [("42", JObj [("id", JStr "42"); ("username", JStr "ann"); ("discriminator", JStr "0001"); ("avatar", JNull)]);
   ("7", JObj [("id", JStr "7"); ("username", JStr "bo"); ("discriminator", JStr "0002"); ("avatar", JNull)])].
Definition ex_members : dict :=
  [("7", JObj [("roles", JList []); ("joined_at", JStr "2021-09-01T00:00:00+00:00"); ("nick", JNull)]);
   ("42", JObj [("roles", JList [JStr "5"]); ("joined_at", JStr "2021-09-02T00:00:00+00:00"); ("nick", JStr "a")])].
Definition ex_resolved_data : dict := [("users", JObj ex_users); ("members", JObj ex_members)].

Definition ex_plain_options : list (string * json * json) :=
  [("count", JInt 4, JInt 3); ("word", JInt 3, JStr "x")].

(** A command invoked in a DM: options, no resolved data. *)
Definition ex_dm_interaction : Interaction :=
  mkInteraction false [("name", JStr "echo"); ("options", JList (map plain_option ex_plain_options))].

Definition ex_cog_cmds : list (string * cog_cmd) :=
  [("pog", mkCogCmd (CSlash (mkSlash "pog" "" None [] []))
             (Some [("q", fun v => inr [LStr "a"; LInt 2])]))].

Definition ex_autocomplete_options : list json :=
  [JObj [("name", JStr "p"); ("value", JInt 1)];
   JObj [("name", JStr "q"); ("value", JStr "x"); ("focused", JBool true)];
   JObj [("name", JStr "r"); ("value", JStr "y"); ("focused", JBool true)]].

Definition ex_autocomplete_data : dict :=
  [("name", JStr "pog"); ("options", JList ex_autocomplete_options)].

Definition ex_registry_cogs : list cog_entry := [mkCog false [1]; mkCog true [2; 1]; mkCog true [1]].

Definition ex_modal : Modal := Modal_new "Survey" (Some "survey") "" [].
(** * Proofs *)

(** ** Facts about dicts and the stable sort *)

Lemma dict_get_set_eq k v d : dict_get k (dict_set k v d) = Some v.
Proof.
  induction d as [|[k' v'] r IH]; simpl.
  - by rewrite String.eqb_refl.
  - destruct (String.eqb k k') eqn:E; simpl.
    + by rewrite String.eqb_refl.
    + by rewrite E.
Qed.

Lemma dict_get_set_ne k k' v d :
  String.eqb k k' = false -> dict_get k (dict_set k' v d) = dict_get k d.
Proof.
  intros Hne. induction d as [|[k'' v'] r IH]; simpl.
  - by rewrite Hne.
  - destruct (String.eqb k' k'') eqn:E; simpl.
    + apply String.eqb_eq in E. subst. by rewrite Hne.
    + by rewrite IH.
Qed.

Section StableSortFacts.
Context {A : Type} (key : A -> bool).

Lemma insert_by_key_split (F T : list A) (x : A) :
  Forall (fun y => key y = false) F -> Forall (fun y => key y = true) T ->
  insert_by_key key x (F ++ T) = if key x then F ++ T ++ [x] else F ++ x :: T.
Proof.
  intros HF HT. induction HF as [|y F' Hy HF' IH]; simpl.
  - induction HT as [|y T' Hy HT' IH]; simpl.
    + by destruct (key x).
    + rewrite Hy, andb_true_r. destruct (key x) eqn:Kx; simpl.
      * by rewrite IH.
      * done.
  - rewrite Hy, andb_false_r, IH. by destruct (key x).
Qed.

Lemma sort_by_key_aux_split (l F T : list A) :
  Forall (fun y => key y = false) F -> Forall (fun y => key y = true) T ->
  sort_by_key_aux key (F ++ T) l =
    (F ++ List.filter (fun y => negb (key y)) l) ++ (T ++ List.filter key l).
Proof.
  revert F T. induction l as [|x l IH]; intros F T HF HT; simpl.
  - by rewrite !app_nil_r.
  - rewrite insert_by_key_split by done.
    destruct (key x) eqn:Kx; simpl.
    + rewrite IH.
      * by rewrite <- !app_assoc.
      * done.
      * apply Forall_app; split; [done|]. by constructor.
    + replace (F ++ x :: T) with ((F ++ [x]) ++ T) by (by rewrite <- app_assoc).
      rewrite IH.
      * by rewrite <- !app_assoc.
      * apply Forall_app; split; [done|]. by constructor.
      * done.
Qed.

(** Python's stable sort on a boolean key is a stable partition. *)
Lemma sort_by_key_partition (l : list A) :
  sort_by_key key l = List.filter (fun y => negb (key y)) l ++ List.filter key l.
Proof.
  unfold sort_by_key. apply (sort_by_key_aux_split l [] []); constructor.
Qed.
End StableSortFacts.

Lemma map_channel_filter_ok args s l s' :
  map_channel_filter args s = (inr l, s') ->
  s' = s /\ l = map (fun t => match channel_filter t with Some c => JInt c | None => JNull end) args
        /\ Forall (fun t => is_Some (channel_filter t)) args.
Proof.
  revert l. induction args as [|t r IH]; intros l; simpl.
  - intros H; inversion H; subst. auto.
  - unfold bindM, of_option, retM, raiseM.
    destruct (channel_filter t) as [c|] eqn:Ec; [|intros H; inversion H].
    destruct (map_channel_filter r s) as [[e|cs] s1] eqn:Er; intros H; inversion H; subst.
    destruct (IH cs eq_refl) as (-> & -> & HF).
    split; [done|]. split; [simpl; rewrite ?Ec; done|]. constructor; [by eexists|done].
Qed.

Ltac unfold_M :=
  unfold bindM, retM, raiseM, of_option, get_description, liftM in *.

(** Every built option carries its parameter's name, and a ["required"]
    key exactly when the parameter has no default. *)
Lemma build_option_spec p s o s' :
  build_option p s = (inr o, s') ->
  dict_get "name" o = Some (JStr (p_name p)) /\
  dict_get "required" o = required_entry p.
Proof.
  intros Hb. destruct p as [n a d]; unfold build_option, required_entry in *; simpl in *.
  destruct a as [|t|r|args|args]; simpl in Hb; unfold_M;
    repeat (case_match; simplify_eq/=);
    simpl; rewrite ?dict_get_set_ne by reflexivity; simpl;
    rewrite ?String.eqb_refl; try done.
Qed.

Lemma build_options_spec ps s os s' :
  build_options ps s = (inr os, s') ->
  Forall2 (fun p o => dict_get "name" o = Some (JStr (p_name p)) /\
                      dict_get "required" o = required_entry p) ps os.
Proof.
  revert s os. induction ps as [|p r IH]; intros s os; simpl; unfold_M.
  - intros H; inversion H; constructor.
  - destruct (build_option p s) as [[e|o] s1] eqn:Ep; [intros H; inversion H|].
    destruct (build_options r s1) as [[e|os'] s2] eqn:Er; intros H; inversion H; subst.
    constructor; [by eapply build_option_spec|]. by eapply IH.
Qed.

Lemma not_required_entry p o :
  dict_get "required" o = required_entry p -> not_required o = negb (is_required_param p).
Proof.
  unfold not_required, required_entry, is_required_param. intros ->. by destruct (p_default p).
Qed.

Lemma filter_names_Forall2 (ps : list param) (os : list dict) (b : bool) :
  Forall2 (fun p o => dict_get "name" o = Some (JStr (p_name p)) /\
                      dict_get "required" o = required_entry p) ps os ->
  map (dict_get "name") (List.filter (fun o => Bool.eqb (not_required o) b) os) =
  map (fun p => Some (JStr (p_name p)))
      (List.filter (fun p => Bool.eqb (negb (is_required_param p)) b) ps).
Proof.
  induction 1 as [|p o ps os [Hn Hr] _ IH]; simpl; [done|].
  rewrite (not_required_entry p o Hr).
  destruct (Bool.eqb (negb (is_required_param p)) b); simpl; [by rewrite Hn, IH|done].
Qed.

Lemma filter_required_Forall2 (ps : list param) (os : list dict) (b : bool) :
  Forall2 (fun p o => dict_get "name" o = Some (JStr (p_name p)) /\
                      dict_get "required" o = required_entry p) ps os ->
  Forall (fun o => exists p, In p ps /\ dict_get "name" o = Some (JStr (p_name p)) /\
                             dict_get "required" o = required_entry p /\
                             Bool.eqb (negb (is_required_param p)) b = true)
         (List.filter (fun o => Bool.eqb (not_required o) b) os).
Proof.
  induction 1 as [|p o ps os [Hn Hr] _ IH]; simpl; [constructor|].
  assert (IH' : Forall (fun o => exists p', In p' (p :: ps) /\ dict_get "name" o = Some (JStr (p_name p')) /\
                          dict_get "required" o = required_entry p' /\
                          Bool.eqb (negb (is_required_param p')) b = true)
                  (List.filter (fun o => Bool.eqb (not_required o) b) os)).
  { eapply Forall_impl; [exact IH|]. intros o' (p' & Hin & H1 & H2 & H3).
    exists p'. simpl. auto. }
  destruct (Bool.eqb (not_required o) b) eqn:Eb; [|done].
  constructor; [|done]. exists p. simpl. rewrite <- (not_required_entry p o Hr). auto.
Qed.

(** Success of the payload build, unfolded. *)
Lemma build_command_payload_inv c s payload s' :
  build_command_payload c s = (inr payload, s') ->
  let base := [("name", JStr (sc_name c)); ("description", JStr (sc_description c));
               ("type", JInt 1)] in
  match sc_parameters c with
  | [] => payload = base
  | ps => exists s1 os, build_options ps s1 = (inr os, s') /\
            payload = dict_set "options" (JList (map JObj (sort_by_key not_required os))) base
  end.
Proof.
  unfold build_command_payload; unfold_M.
  destruct (build_descriptions c s) as [[e|[]] s1] eqn:Ed; [intros H; inversion H|].
  destruct (sc_parameters c) as [|p ps] eqn:Ep; [intros H; by inversion H|].
  destruct (build_options (p :: ps) s1) as [[e|os] s2] eqn:Eo; intros H; inversion H; subst.
  by exists s1, os.
Qed.

Lemma filter_partition_length {A} (f : A -> bool) (l : list A) :
  length (List.filter (fun y => Bool.eqb (f y) false) l ++ List.filter (fun y => Bool.eqb (f y) true) l) = length l.
Proof.
  rewrite length_app. induction l as [|x l IH]; simpl; [done|].
  destruct (f x); simpl; lia.
Qed.

Lemma sort_not_required_split (os : list dict) :
  sort_by_key not_required os =
  List.filter (fun y => Bool.eqb (not_required y) false) os ++
  List.filter (fun y => Bool.eqb (not_required y) true) os.
Proof.
  rewrite sort_by_key_partition. f_equal; apply List.filter_ext; intros o; by destruct (not_required o).
Qed.

Lemma required_entry_of_flag p b :
  Bool.eqb (negb (is_required_param p)) b = true ->
  required_entry p = if b then None else Some (JBool true).
Proof.
  unfold required_entry, is_required_param. destruct (p_default p), b; simpl; done.
Qed.

Lemma filter_flag_ext (ps : list param) (b : bool) :
  List.filter (fun p => Bool.eqb (negb (is_required_param p)) b) ps =
  List.filter (fun p => if b then negb (is_required_param p) else is_required_param p) ps.
Proof. apply List.filter_ext; intros p. by destruct (is_required_param p), b. Qed.

(** ** C1 *)

(** C1: whenever the Option Schema Builder produces a payload, its options
    list has exactly one entry per declared parameter (after self and
    context), all entries with [required = True] come before all entries
    without a ["required"] key, and within each group the entries follow
    the declaration order of their parameters. An empty parameter list
    emits no options key. *)
Theorem C1_options_one_per_param_required_first (c : SlashCommand) s payload s' :
  build_command_payload c s = (inr payload, s') ->
  exists R O,
    (match sc_parameters c with
     | [] => dict_get "options" payload = None
     | _ => dict_get "options" payload = Some (JList (map JObj (R ++ O)))
     end) /\
    length (R ++ O) = length (sc_parameters c) /\
    Forall (fun o => dict_get "required" o = Some (JBool true)) R /\
    Forall (fun o => dict_get "required" o = None) O /\
    map (dict_get "name") R =
      map (fun p => Some (JStr (p_name p))) (List.filter is_required_param (sc_parameters c)) /\
    map (dict_get "name") O =
      map (fun p => Some (JStr (p_name p)))
          (List.filter (fun p => negb (is_required_param p)) (sc_parameters c)).
Proof.
  intros Hb. apply build_command_payload_inv in Hb. cbv zeta in Hb.
  destruct (sc_parameters c) as [|p0 ps0] eqn:Eps.
  - subst. exists [], []. simpl. repeat split; constructor.
  - destruct Hb as (s1 & os & Ho & ->).
    pose proof (build_options_spec _ _ _ _ Ho) as HF.
    exists (List.filter (fun y => Bool.eqb (not_required y) false) os),
           (List.filter (fun y => Bool.eqb (not_required y) true) os).
    split; [by rewrite dict_get_set_eq, sort_not_required_split|].
    split; [rewrite filter_partition_length; symmetry; by eapply Forall2_length|].
    split.
    { eapply Forall_impl; [exact (filter_required_Forall2 _ _ false HF)|].
      intros o (p & _ & _ & Hr & Hf). rewrite Hr. by apply (required_entry_of_flag p false). }
    split.
    { eapply Forall_impl; [exact (filter_required_Forall2 _ _ true HF)|].
      intros o (p & _ & _ & Hr & Hf). rewrite Hr. by apply (required_entry_of_flag p true). }
    split.
    + rewrite (filter_names_Forall2 _ _ false HF). by rewrite filter_flag_ext.
    + rewrite (filter_names_Forall2 _ _ true HF). by rewrite filter_flag_ext.
Qed.

Lemma payload_options_objs (L : list dict) base :
  payload_options (dict_set "options" (JList (map JObj L)) base) = L.
Proof.
  unfold payload_options. rewrite dict_get_set_eq.
  induction L as [|o L IH]; simpl; [done|]. by rewrite IH.
Qed.

(** ** C9 *)

(** C9: in every built slash-command payload, each option entry belongs to
    a declared parameter of the same name, and it has the key ["required"]
    (with value [True]) exactly when that parameter has no default; for a
    parameter with a default the option has no ["required"] key at all. *)
Theorem C9_required_key_iff_no_default (c : SlashCommand) s payload s' :
  build_command_payload c s = (inr payload, s') ->
  Forall (fun o => exists p, In p (sc_parameters c) /\
            dict_get "name" o = Some (JStr (p_name p)) /\
            dict_get "required" o =
              match p_default p with None => Some (JBool true) | Some _ => None end)
         (payload_options payload).
Proof.
  intros Hb. apply build_command_payload_inv in Hb. cbv zeta in Hb.
  destruct (sc_parameters c) as [|p0 ps0] eqn:Eps.
  - subst. constructor.
  - destruct Hb as (s1 & os & Ho & ->).
    pose proof (build_options_spec _ _ _ _ Ho) as HF.
    rewrite payload_options_objs, sort_not_required_split. apply Forall_app.
    split; (eapply Forall_impl; [exact (filter_required_Forall2 _ _ _ HF)|]);
      intros o (p & Hin & Hn & Hr & _); exists p; auto.
Qed.

(** ** Channel unions *)

Lemma build_option_union p args s o s' :
  p_annotation p = Ann_union args ->
  build_option p s = (inr o, s') ->
  if Nat.eqb (length args) 3 then dict_get "channel_types" o = None
  else dict_get "channel_types" o =
         Some (JList (map (fun t => match channel_filter t with Some c => JInt c | None => JNull end) args))
       /\ Forall (fun t => is_Some (channel_filter t)) args.
Proof.
  intros Ha Hb. destruct p as [n a d]; simpl in Ha; subst a.
  unfold build_option in Hb; simpl in Hb; unfold_M.
  repeat (case_match; simplify_eq; cbn -[map_channel_filter] in *).
  all: try (match goal with
            | H : map_channel_filter _ _ = (inr _, _) |- _ =>
                destruct (map_channel_filter_ok _ _ _ _ H) as (_ & -> & HF)
            end).
  all: simpl; rewrite ?dict_get_set_eq; repeat rewrite dict_get_set_ne by reflexivity;
       simpl; auto.
  all: repeat match goal with
              | H : channel_filter _ = Some _ |- _ => rewrite H; clear H
              | H : channel_filter _ = None |- _ => rewrite H; clear H
              end; auto.
Qed.

Lemma build_options_run ps s os s' :
  build_options ps s = (inr os, s') ->
  Forall2 (fun p o => exists s1 s2, build_option p s1 = (inr o, s2)) ps os.
Proof.
  revert s os. induction ps as [|p r IH]; intros s os; simpl; unfold_M.
  - intros H; inversion H; constructor.
  - destruct (build_option p s) as [[e|o] s1] eqn:Ep; [intros H; inversion H|].
    destruct (build_options r s1) as [[e|os'] s2] eqn:Er; intros H; inversion H; subst.
    constructor; [by eauto|]. by eapply IH.
Qed.

Lemma Forall2_in_left {A B} (P : A -> B -> Prop) l k x :
  Forall2 P l k -> In x l -> exists y, In y k /\ P x y.
Proof.
  induction 1 as [|a b l k Hab _ IH]; simpl; [done|].
  intros [->|Hin]; [by exists b; auto|].
  destruct (IH Hin) as (y & Hy & HP). exists y; auto.
Qed.

Lemma in_sort_not_required o os : In o os -> In o (sort_by_key not_required os).
Proof.
  intros Hin. rewrite sort_not_required_split, in_app_iff, !List.filter_In.
  destruct (not_required o); [right|left]; auto.
Qed.

(** Every declared parameter has its built option in the payload. *)
Lemma payload_has_option (c : SlashCommand) s payload s' p :
  build_command_payload c s = (inr payload, s') ->
  In p (sc_parameters c) ->
  exists o, In o (payload_options payload) /\ exists s1 s2, build_option p s1 = (inr o, s2).
Proof.
  intros Hb Hin. apply build_command_payload_inv in Hb. cbv zeta in Hb.
  destruct (sc_parameters c) as [|p0 ps0] eqn:Eps; [done|].
  destruct Hb as (s1 & os & Ho & ->).
  pose proof (build_options_run _ _ _ _ Ho) as HF.
  destruct (Forall2_in_left _ _ _ _ HF Hin) as (o & Ho' & Hrun).
  exists o. rewrite payload_options_objs. split; [by apply in_sort_not_required|done].
Qed.

Lemma build_option_range p r s o s' :
  p_annotation p = Ann_range r ->
  build_option p s = (inr o, s') ->
  dict_get "max_value" o = Some (num_json (max r)) /\
  dict_get "min_value" o = Some (match min r with Some m => num_json m | None => JNull end).
Proof.
  intros Ha Hb. destruct p as [n a d]; simpl in Ha; subst a.
  unfold build_option in Hb; simpl in Hb; unfold_M.
  repeat (case_match; simplify_eq; cbn -[map_channel_filter] in *).
  all: rewrite ?dict_get_set_eq; repeat rewrite dict_get_set_ne by reflexivity;
       rewrite ?dict_get_set_eq; auto.
Qed.

(** ** C10 *)

(** C10: for a declared parameter annotated as a union of channel types,
    the built option of that parameter has a ["channel_types"] filter,
    holding the [channel_filter] code of each union member in order,
    exactly when the union does not have three members; a three-member
    union yields no ["channel_types"] key. *)
Theorem C10_union_channel_types (c : SlashCommand) s payload s' p args :
  build_command_payload c s = (inr payload, s') ->
  In p (sc_parameters c) ->
  p_annotation p = Ann_union args ->
  exists o, In o (payload_options payload) /\
    dict_get "name" o = Some (JStr (p_name p)) /\
    if Nat.eqb (length args) 3 then dict_get "channel_types" o = None
    else dict_get "channel_types" o =
           Some (JList (map (fun t => match channel_filter t with Some c => JInt c | None => JNull end) args))
         /\ Forall (fun t => is_Some (channel_filter t)) args.
Proof.
  intros Hb Hin Ha.
  destruct (payload_has_option c s payload s' p Hb Hin) as (o & Ho & s1 & s2 & Hbo).
  exists o. split; [done|]. split; [by destruct (build_option_spec _ _ _ _ Hbo)|].
  by eapply build_option_union.
Qed.



Opaque map_channel_filter.


Transparent map_channel_filter.


Opaque build_options.


Transparent build_options.




(** ** C5 *)




(** ** C3 *)

(** C3 (counterexample): for [Range[10]], i.e. [Range(None, 10)], the
    built option does have a ["min_value"] key, holding [None]. *)
Lemma C3_counterexample :
  Range_new None (NInt 10) = inr (mkRange None (NInt 10)) /\
  match build_command_payload ex_range ∅ with
  | (inr payload, _) =>
      payload_options payload =
        [[("type", JInt 4); ("name", JStr "num");
          ("description", JStr "No description provided"); ("required", JBool true);
          ("max_value", JInt 10); ("min_value", JInt 0)];
         [("type", JInt 4); ("name", JStr "other_num");
          ("description", JStr "No description provided"); ("required", JBool true);
          ("max_value", JInt 10); ("min_value", JNull)]] /\
      exists o, In o (payload_options payload) /\
        dict_get "name" o = Some (JStr "other_num") /\ dict_get "min_value" o = Some JNull
  | _ => False
  end.
Proof.
  split; [reflexivity|]. vm_compute. split; [reflexivity|].
  eexists. split; [right; left; reflexivity|]. split; reflexivity.
Qed.

(** C3 (amended): for a parameter annotated with a [Range] built as
    [Range(mn, mx)], the built option carries [max_value = mx] and a
    ["min_value"] key holding [mn], which is [None] (JSON null) when no
    minimum was given. In particular [Range(0, 10)] gives [min_value = 0,
    max_value = 10] and [Range(None, 10)] gives [max_value = 10,
    min_value = None]. *)
Theorem C3_range_bounds_amended (c : SlashCommand) s payload s' p mn mx r :
  Range_new mn mx = inr r ->
  build_command_payload c s = (inr payload, s') ->
  In p (sc_parameters c) ->
  p_annotation p = Ann_range r ->
  exists o, In o (payload_options payload) /\
    dict_get "name" o = Some (JStr (p_name p)) /\
    dict_get "max_value" o = Some (num_json mx) /\
    dict_get "min_value" o = Some (match mn with Some m => num_json m | None => JNull end).
Proof.
  intros Hr Hb Hin Ha.
  assert (Er : r = mkRange mn mx).
  { unfold Range_new in Hr. destruct mn; [destruct (Qle_bool _ _)|]; congruence. }
  subst r.
  destruct (payload_has_option c s payload s' p Hb Hin) as (o & Ho & s1 & s2 & Hbo).
  exists o. split; [done|]. split; [by destruct (build_option_spec _ _ _ _ Hbo)|].
  exact (build_option_range _ _ _ _ _ Ha Hbo).
Qed.

Lemma C3_range_bounds_amended_witness :
  exists payload s' o,
    build_command_payload ex_range ∅ = (inr payload, s') /\
    In o (payload_options payload) /\
    dict_get "max_value" o = Some (JInt 10) /\ dict_get "min_value" o = Some JNull.
Proof.
  destruct (build_command_payload ex_range ∅) as [[e|payload] s'] eqn:E;
    [vm_compute in E; discriminate|].
  destruct (C3_range_bounds_amended ex_range ∅ payload s'
              (mkParam "other_num" (Ann_range (mkRange None (NInt 10))) None)
              None (NInt 10) (mkRange None (NInt 10)))
    as (o & Ho & _ & Hmax & Hmin); [reflexivity|exact E|simpl; auto|reflexivity|].
  exists payload, s', o. auto.
Defined.

Lemma C1_options_one_per_param_required_first_witness :
  exists payload s', build_command_payload ex_channels ∅ = (inr payload, s') /\
    exists R O, dict_get "options" payload = Some (JList (map JObj (R ++ O))) /\
      length (R ++ O) = 2 /\
      map (dict_get "name") R = [Some (JStr "ch")] /\
      map (dict_get "name") O = [Some (JStr "n")].
Proof.
  destruct (build_command_payload ex_channels ∅) as [[e|payload] s'] eqn:E;
    [vm_compute in E; discriminate|].
  exists payload, s'. split; [reflexivity|].
  destruct (C1_options_one_per_param_required_first ex_channels ∅ payload s' E)
    as (R & O & H1 & H2 & _ & _ & H5 & H6).
  exists R, O. simpl in H1. auto.
Defined.

Lemma C9_required_key_iff_no_default_witness :
  exists payload s', build_command_payload ex_channels ∅ = (inr payload, s') /\
    Forall (fun o => exists p, In p (sc_parameters ex_channels) /\
              dict_get "name" o = Some (JStr (p_name p)) /\
              dict_get "required" o =
                match p_default p with None => Some (JBool true) | Some _ => None end)
           (payload_options payload).
Proof.
  destruct (build_command_payload ex_channels ∅) as [[e|payload] s'] eqn:E;
    [vm_compute in E; discriminate|].
  exists payload, s'. split; [reflexivity|].
  exact (C9_required_key_iff_no_default ex_channels ∅ payload s' E).
Defined.

Lemma C10_union_channel_types_witness :
  exists payload s' o, build_command_payload ex_channels ∅ = (inr payload, s') /\
    In o (payload_options payload) /\
    dict_get "channel_types" o = Some (JList [JInt 0; JInt 2]).
Proof.
  destruct (build_command_payload ex_channels ∅) as [[e|payload] s'] eqn:E;
    [vm_compute in E; discriminate|].
  destruct (C10_union_channel_types ex_channels ∅ payload s'
              (mkParam "ch" (Ann_union [T_TextChannel; T_VoiceChannel]) None)
              [T_TextChannel; T_VoiceChannel])
    as (o & Ho & _ & Hct); [exact E|simpl; auto|reflexivity|].
  exists payload, s', o. simpl in Hct. destruct Hct as [Hct _]. auto.
Defined.

(** ** C2 and C4 *)

Lemma resolve_option_missing resolved o v t res :
  dict_get "type" o = Some t -> is_entity_option_type t = true ->
  dict_get "value" o = Some v ->
  (forall k, py_int v = inr k -> resolved !! k = None) ->
  is_err (resolve_option resolved (JObj o) res) = true.
Proof.
  intros Ht He Hv Hmiss. unfold resolve_option; simpl.
  rewrite Hv, Ht; simpl. rewrite He; simpl.
  destruct (py_int v) as [e|k] eqn:Ek; simpl; [done|].
  by rewrite (Hmiss k eq_refl).
Qed.

Lemma resolve_options_err resolved l x res :
  In x l -> (forall res', is_err (resolve_option resolved x res') = true) ->
  is_err (resolve_options resolved l res) = true.
Proof.
  revert res. induction l as [|y l IH]; intros res Hin Hx; simpl in *; [done|].
  destruct Hin as [->|Hin].
  - specialize (Hx res). destruct (resolve_option resolved x res); done.
  - destruct (resolve_option resolved y res) as [e|res']; simpl; [done|].
    by apply IH.
Qed.

(** C2: for an inbound invocation whose options contain an option of wire
    type 6, 7 or 8 whose value ID has no entry in the resolved side-table,
    the Argument Resolver raises: no argument mapping is produced. *)
Theorem C2_missing_resolved_entity_raises (i : Interaction) opts o v t :
  dict_get "options" (i_data i) = Some (JList opts) ->
  In (JObj o) opts ->
  dict_get "type" o = Some t -> is_entity_option_type t = true ->
  dict_get "value" o = Some v ->
  (forall r k, parse_resolved_data i (dict_get "resolved" (i_data i)) = inr r ->
               py_int v = inr k -> r !! k = None) ->
  is_err (build_arguments i) = true.
Proof.
  intros Hopts Hin Ht He Hv Hmiss. unfold build_arguments. rewrite Hopts.
  destruct (parse_resolved_data i (dict_get "resolved" (i_data i))) as [e|r] eqn:Er; simpl; [done|].
  eapply resolve_options_err; [exact Hin|].
  intros res. eapply resolve_option_missing; eauto.
Qed.

(** C4: an inbound invocation whose data has no ["options"] key resolves
    to the empty argument mapping, without raising. *)
Theorem C4_no_options_empty_arguments (i : Interaction) :
  dict_get "options" (i_data i) = None ->
  build_arguments i = inr [].
Proof. intros H. unfold build_arguments. by rewrite H. Qed.

Lemma C2_missing_resolved_entity_raises_witness :
  is_err (build_arguments ex_missing_user) = true.
Proof.
  apply (C2_missing_resolved_entity_raises ex_missing_user
           [JObj [("name", JStr "u"); ("type", JInt 6); ("value", JStr "123")]]
           [("name", JStr "u"); ("type", JInt 6); ("value", JStr "123")]
           (JStr "123") (JInt 6)); try reflexivity.
  - simpl; auto.
  - intros r k Hr Hk. vm_compute in Hr. vm_compute in Hk.
    injection Hr as <-. injection Hk as <-. vm_compute. reflexivity.
Defined.

Lemma C4_no_options_empty_arguments_witness :
  build_arguments (mkInteraction true [("name", JStr "pog")]) = inr [].
Proof. apply C4_no_options_empty_arguments. reflexivity. Defined.

(** ** C6 *)

(** C6 (counterexample): a handler that raises
    [asyncio.CancelledError], a [BaseException] that is not an
    [Exception], is neither wrapped nor routed: the hook receives no error
    and the exception leaves the listener. *)
Lemma C6_counterexample :
  invoke_with_hook (Raised (BaseOnly "CancelledError")) =
  mkInvocation [] (Some (BaseOnly "CancelledError")).
Proof. reflexivity. Qed.

(** C6 (amended): a [commands.CommandError] raised by the handler reaches
    the cog's error hook unchanged; any other [Exception] reaches it
    wrapped as [CommandInvokeError] holding the original; in both cases
    the hook is called once, with an error of the [CommandError] family.
    An exception outside [Exception] is not routed to the hook and
    propagates. *)
Theorem C6_error_routing_amended (e : exn) :
  invoke_with_hook (Raised e) =
    (if is_command_error e then mkInvocation [e] None
     else if is_Exception e then mkInvocation [CommandInvokeError e] None
     else mkInvocation [] (Some e)) /\
  Forall (fun x => is_command_error x = true) (hook_calls (invoke_with_hook (Raised e))) /\
  (is_Exception e = true -> length (hook_calls (invoke_with_hook (Raised e))) = 1).
Proof. destruct e; simpl; repeat split; repeat constructor; discriminate. Qed.

Lemma C6_error_routing_amended_witness :
  length (hook_calls (invoke_with_hook (Raised (OtherException "ZeroDivisionError")))) = 1.
Proof. apply (C6_error_routing_amended (OtherException "ZeroDivisionError")). reflexivity. Defined.

(** ** The modal correlator: invariants *)

Lemma fresh_lt st k : fresh st -> is_Some (ms_slots st !! k) -> k < ms_next st.
Proof.
  intros Hf [v Hv]. destruct (Nat.lt_ge_cases k (ms_next st)) as [|Hge]; [done|].
  rewrite (Hf k Hge) in Hv. discriminate.
Qed.

Lemma Inv_with_modals st log t : Inv st log -> Inv (with_modals st t) log.
Proof. destruct st; unfold with_modals; simpl. done. Qed.

Lemma not_in_log st log k :
  Inv st log -> ms_slots st !! k = Some SPending -> ~ In k (map fst log).
Proof.
  intros (_ & _ & Hd) Hp Hin. apply in_map_iff in Hin as ([k' x] & <- & Hin).
  simpl in *. rewrite (Hd _ _ Hin) in Hp. discriminate.
Qed.

Lemma Inv_fulfil st log k i :
  Inv st log -> ms_slots st !! k = Some SPending ->
  Inv (with_slot st k (SDone i)) (log ++ [(k, i)]).
Proof.
  intros HI Hp. pose proof (not_in_log _ _ _ HI Hp) as Hn.
  destruct HI as (Hf & Hnd & Hd). unfold with_slot; split; [|split]; simpl.
  - intros k' Hk'. simpl in *. assert (k <> k').
    { intros Heq. subst k'. assert (Hs : is_Some (ms_slots st !! k)) by (rewrite Hp; by eexists).
      pose proof (fresh_lt st k Hf Hs). simpl in *. lia. }
    rewrite lookup_insert_ne by done. by apply Hf.
  - rewrite map_app. simpl. apply NoDup_app; split; [done|]. split.
    + intros x Hx Hx'. rewrite list_elem_of_In in Hx, Hx'. simpl in Hx'.
      destruct Hx' as [<-|[]]. by apply Hn.
    + apply NoDup_singleton.
  - intros k' x Hin. apply in_app_or in Hin as [Hin|[[= <- <-]|[]]].
    + rewrite lookup_insert_ne; [by apply Hd|].
      intros <-. apply Hn. apply in_map_iff. by exists (k, x).
    + by rewrite lookup_insert_eq.
Qed.

Lemma Inv_set_result m i st log r st' f :
  Inv st log -> set_result m i st = (r, st', f) -> Inv st' (log ++ f).
Proof.
  intros HI. unfold set_result.
  destruct (ms_response st !! m) as [k|]; [|intros [= <- <- <-]; by rewrite app_nil_r].
  destruct (ms_slots st !! k) as [[| |]|] eqn:Ek; intros [= <- <- <-];
    try by rewrite app_nil_r.
  by apply Inv_fulfil.
Qed.

Lemma Inv_bot_listener ev st log r st' f :
  Inv st log -> bot_listener ev st = (r, st', f) -> Inv st' (log ++ f).
Proof.
  intros HI. unfold bot_listener. repeat case_match; intros [= <- <- <-]; by rewrite app_nil_r.
Qed.

Lemma Inv_cog_listener ev st log r st' f :
  Inv st log -> cog_listener ev st = (r, st', f) -> Inv st' (log ++ f).
Proof.
  intros HI. unfold cog_listener.
  destruct (Z.eqb (ev_type ev) 5); [|intros [= <- <- <-]; by rewrite app_nil_r].
  set (t := match ms_modals st with Some t => t | None => ∅ end).
  pose proof (Inv_with_modals st log t HI) as HI1.
  destruct (dict_get "custom_id" (i_data (ev_interaction ev))) as [[| | | |c| |]|];
    try (intros [= <- <- <-]; by rewrite app_nil_r).
  destruct (t !! c) as [m|]; [|intros [= <- <- <-]; by rewrite app_nil_r].
  intros Hs. eapply Inv_set_result; [|exact Hs]. by apply Inv_with_modals.
Qed.

Lemma Inv_with_slot_pending st log k v :
  Inv st log -> ms_slots st !! k = Some SPending -> Inv (with_slot st k v) log.
Proof.
  intros HI Hp. pose proof (not_in_log _ _ _ HI Hp) as Hn.
  destruct HI as (Hf & Hnd & Hd). unfold with_slot; split; [|split]; simpl; [|done|].
  - intros k' Hk'. simpl in *. assert (k <> k').
    { intros Heq. subst k'. assert (Hs : is_Some (ms_slots st !! k)) by (rewrite Hp; by eexists).
      pose proof (fresh_lt st k Hf Hs). lia. }
    rewrite lookup_insert_ne by done. by apply Hf.
  - intros k' x Hin. rewrite lookup_insert_ne; [by apply Hd|].
    intros <-. apply Hn. apply in_map_iff. by exists (k, x).
Qed.

Lemma Inv_new_modal st log m : Inv st log -> Inv (new_modal m st) log.
Proof.
  intros (Hf & Hnd & Hd). unfold new_modal; split; [|split]; simpl; [|done|].
  - unfold fresh; simpl. intros k' Hk'. rewrite lookup_insert_ne by lia. apply Hf. lia.
  - intros k' x Hin. rewrite lookup_insert_ne; [by apply Hd|].
    intros <-. specialize (Hd _ _ Hin). rewrite (Hf (ms_next st)) in Hd by lia.
    discriminate.
Qed.

Lemma Inv_run_listeners ls ev st log st' f :
  Forall (fun l => forall st log r st' f, Inv st log -> l ev st = (r, st', f) -> Inv st' (log ++ f)) ls ->
  Inv st log -> run_listeners ls ev st = (st', f) -> Inv st' (log ++ f).
Proof.
  intros Hls. revert st log st' f.
  induction Hls as [|l ls Hl _ IH]; intros st log st' f HI; simpl.
  - intros [= <- <-]. by rewrite app_nil_r.
  - destruct (l ev st) as [[r st1] f1] eqn:E1.
    destruct (run_listeners ls ev st1) as [st2 f2] eqn:E2. intros [= <- <-].
    rewrite app_assoc. eapply IH; [|exact E2]. by eapply Hl.
Qed.

Lemma Inv_dispatch n ev st log st' f :
  Inv st log -> dispatch n ev st = (st', f) -> Inv st' (log ++ f).
Proof.
  apply Inv_run_listeners. constructor.
  - intros. by eapply Inv_bot_listener.
  - apply Forall_forall. intros l Hl. apply list_elem_of_In, repeat_spec in Hl as ->.
    intros. by eapply Inv_cog_listener.
Qed.

Lemma Inv_run_step n s st log st' f :
  Inv st log -> run_step n s st = (st', f) -> Inv st' (log ++ f).
Proof.
  intros HI. destruct s as [ev|c m|m|m|m]; simpl.
  - by apply Inv_dispatch.
  - intros [= <- <-]. rewrite app_nil_r. by apply Inv_with_modals.
  - intros [= <- <-]. rewrite app_nil_r. by apply Inv_new_modal.
  - intros [= <- <-]. rewrite app_nil_r. unfold reset.
    destruct (ms_response st !! m) as [k|]; [|done].
    apply Inv_new_modal.
    destruct (ms_slots st !! k) as [[| |]|] eqn:Ek; try done.
    by apply Inv_with_slot_pending.
  - intros [= <- <-]. rewrite app_nil_r. unfold wait_timeout.
    destruct (ms_response st !! m) as [k|]; [|done].
    destruct (ms_slots st !! k) as [[| |]|] eqn:Ek; try done.
    by apply Inv_with_slot_pending.
Qed.

Lemma Inv_run n steps st log st' f :
  Inv st log -> run n steps st = (st', f) -> Inv st' (log ++ f).
Proof.
  revert st log st' f. induction steps as [|s steps IH]; intros st log st' f HI; simpl.
  - intros [= <- <-]. by rewrite app_nil_r.
  - destruct (run_step n s st) as [st1 f1] eqn:E1.
    destruct (run n steps st1) as [st2 f2] eqn:E2. intros [= <- <-].
    rewrite app_assoc. eapply IH; [|exact E2]. by eapply Inv_run_step.
Qed.

Lemma with_modals_same st t : ms_modals st = Some t -> with_modals st t = st.
Proof. destruct st; simpl; by intros ->. Qed.

Lemma set_result_modals m i st r st' f :
  set_result m i st = (r, st', f) -> ms_modals st' = ms_modals st.
Proof. unfold set_result. repeat case_match; intros; simplify_eq; done. Qed.

Lemma bot_listener_state ev st r st' f :
  bot_listener ev st = (r, st', f) -> st' = st /\ f = [].
Proof. unfold bot_listener. repeat case_match; intros; simplify_eq; done. Qed.

Lemma cog_listener_noop c ev st :
  NoC c st -> ev_type ev = 5%Z ->
  dict_get "custom_id" (i_data (ev_interaction ev)) = Some (JStr c) ->
  cog_listener ev st = (None, st, []).
Proof.
  intros (t & Ht & Hc) Hty Hid. unfold cog_listener. rewrite Hty, Ht, Hid. simpl.
  rewrite Hc. by rewrite with_modals_same.
Qed.

Lemma cogs_noop c n ev st :
  NoC c st -> ev_type ev = 5%Z ->
  dict_get "custom_id" (i_data (ev_interaction ev)) = Some (JStr c) ->
  run_listeners (repeat cog_listener n) ev st = (st, []).
Proof.
  intros HN Hty Hid. induction n as [|n IH]; simpl; [done|].
  rewrite (cog_listener_noop c ev st HN Hty Hid), IH. done.
Qed.

Lemma dispatch_noop c n ev st :
  NoC c st -> ev_type ev = 5%Z ->
  dict_get "custom_id" (i_data (ev_interaction ev)) = Some (JStr c) ->
  dispatch n ev st = (st, []).
Proof.
  intros HN Hty Hid. unfold dispatch. simpl.
  destruct (bot_listener ev st) as [[r st1] f1] eqn:E.
  apply bot_listener_state in E as [-> ->]. by rewrite (cogs_noop c n ev st HN Hty Hid).
Qed.

Lemma NoC_cog_listener c ev st r st' f :
  NoC c st -> cog_listener ev st = (r, st', f) -> NoC c st'.
Proof.
  intros (t & Ht & Hc). unfold cog_listener. rewrite Ht.
  destruct (Z.eqb (ev_type ev) 5); [|intros; simplify_eq; by exists t].
  rewrite with_modals_same by done.
  destruct (dict_get "custom_id" (i_data (ev_interaction ev))) as [[| | | |c'| |]|];
    try (intros; simplify_eq; by exists t).
  destruct (t !! c') as [m|] eqn:Em; [|intros; simplify_eq; by exists t].
  intros E. apply set_result_modals in E. unfold NoC. rewrite E. simpl.
  exists (delete c' t). split; [done|]. by rewrite lookup_delete_None; right.
Qed.

Lemma NoC_run_listeners c ls ev st st' f :
  Forall (fun l => forall st r st' f, NoC c st -> l ev st = (r, st', f) -> NoC c st') ls ->
  NoC c st -> run_listeners ls ev st = (st', f) -> NoC c st'.
Proof.
  intros Hls. revert st st' f.
  induction Hls as [|l ls Hl _ IH]; intros st st' f HN; simpl.
  - by intros [= <- _].
  - destruct (l ev st) as [[r st1] f1] eqn:E1.
    destruct (run_listeners ls ev st1) as [st2 f2] eqn:E2. intros [= <- _].
    eapply IH; [|exact E2]. by eapply Hl.
Qed.

Lemma NoC_run_step c n s st st' f :
  (forall m', s <> StSend c m') -> NoC c st -> run_step n s st = (st', f) -> NoC c st'.
Proof.
  intros Hs HN. destruct s as [ev|c' m|m|m|m]; simpl.
  - apply NoC_run_listeners; [|done]. constructor.
    + intros st0 r st0' f0 H0 E. by apply bot_listener_state in E as [-> _].
    + apply Forall_forall. intros l Hl. apply list_elem_of_In, repeat_spec in Hl as ->.
      intros. by eapply NoC_cog_listener.
  - intros [= <- _]. destruct HN as (t & Ht & Hc). unfold send_modal, with_modals.
    rewrite Ht. exists (<[c' := m]> t). simpl. split; [done|].
    rewrite lookup_insert_ne; [done|]. intros ->. by apply (Hs m).
  - intros [= <- _]. exact HN.
  - intros [= <- _]. unfold reset. destruct (ms_response st !! m); [|done].
    destruct (ms_slots st !! n0) as [[| |]|]; exact HN.
  - intros [= <- _]. unfold wait_timeout. destruct (ms_response st !! m); [|done].
    destruct (ms_slots st !! n0) as [[| |]|]; exact HN.
Qed.

Lemma NoC_run c n steps st st' f :
  (forall m', ~ In (StSend c m') steps) -> NoC c st -> run n steps st = (st', f) -> NoC c st'.
Proof.
  revert st st' f. induction steps as [|s steps IH]; intros st st' f Hs HN; simpl.
  - by intros [= <- _].
  - destruct (run_step n s st) as [st1 f1] eqn:E1.
    destruct (run n steps st1) as [st2 f2] eqn:E2. intros [= <- _].
    eapply IH; [| |exact E2].
    + intros m' Hin. apply (Hs m'). by right.
    + eapply NoC_run_step; [|exact HN|exact E1]. intros m' ->. apply (Hs m'). by left.
Qed.

Lemma dispatch_first c n t m k ev st :
  ms_modals st = Some t -> t !! c = Some m -> ms_response st !! m = Some k ->
  ms_slots st !! k = Some SPending -> ev_type ev = 5%Z ->
  dict_get "custom_id" (i_data (ev_interaction ev)) = Some (JStr c) ->
  dispatch (S n) ev st =
    (with_slot (with_modals st (delete c t)) k (SDone (ev_interaction ev)),
     [(k, ev_interaction ev)]).
Proof.
  intros Ht Hc Hm Hk Hty Hid. unfold dispatch. simpl.
  destruct (bot_listener ev st) as [[r st1] f1] eqn:E.
  apply bot_listener_state in E as [-> ->]. simpl.
  unfold cog_listener at 1. rewrite Hty, Ht, Hid. simpl. rewrite Hc.
  rewrite (with_modals_same st t) by done. unfold set_result. simpl. rewrite Hm, Hk.
  rewrite (cogs_noop c n ev); [done| |done|done].
  exists (delete c t). split; [done|]. apply lookup_delete_eq.
Qed.

(** X28: with at least one slash_util [Cog] loaded, whose listener does
    the popping, from a state where the modal [m] is pending under the
    identifier [c] and its current slot [k] is not done, the first submission event carrying [c] removes [c] from the
    pending table and fulfils slot [k] with that interaction. In every
    later sequence of steps slot [k] is fulfilled by no other event and
    stays done with the first interaction, and as long as no step sends a
    modal under [c] again, any later submission carrying [c] leaves the
    state unchanged and fulfils nothing. *)
Theorem modal_slot_fulfilled_once_with_cog ncogs st t c m k ev st1 f1 :
  fresh st -> 1 <= ncogs ->
  ms_modals st = Some t -> t !! c = Some m -> ms_response st !! m = Some k ->
  ms_slots st !! k = Some SPending -> ev_type ev = 5%Z ->
  dict_get "custom_id" (i_data (ev_interaction ev)) = Some (JStr c) ->
  dispatch ncogs ev st = (st1, f1) ->
  f1 = [(k, ev_interaction ev)] /\ ms_modals st1 = Some (delete c t) /\
  ms_slots st1 !! k = Some (SDone (ev_interaction ev)) /\
  forall steps st2 f2, run ncogs steps st1 = (st2, f2) ->
    (k ∉ map fst f2) /\ ms_slots st2 !! k = Some (SDone (ev_interaction ev)) /\
    ((forall m', ~ In (StSend c m') steps) ->
     forall ev', ev_type ev' = 5%Z ->
     dict_get "custom_id" (i_data (ev_interaction ev')) = Some (JStr c) ->
     dispatch ncogs ev' st2 = (st2, [])).
Proof.
  intros Hf Hn Ht Hc Hm Hk Hty Hid Hd.
  destruct ncogs as [|n]; [lia|].
  rewrite (dispatch_first c n t m k ev st) in Hd by done. injection Hd as <- <-.
  assert (HI : Inv st []).
  { split; [done|]. split; [constructor|]. intros ? ? []. }
  assert (HI1 : Inv (with_slot (with_modals st (delete c t)) k (SDone (ev_interaction ev)))
                    [(k, ev_interaction ev)]).
  { eapply (Inv_dispatch (S n) ev st [] _ _ HI). by apply (dispatch_first c n t m k ev st). }
  split; [done|]. split; [done|]. split; [apply lookup_insert_eq|].
  intros steps st2 f2 Hr.
  pose proof (Inv_run _ _ _ _ _ _ HI1 Hr) as (_ & Hnd & Hdone).
  split; [|split].
  - simpl in Hnd. apply NoDup_cons in Hnd as [Hnd _]. exact Hnd.
  - apply Hdone. by left.
  - intros Hs ev' Hty' Hid'. eapply (dispatch_noop c); [|done|done].
    eapply NoC_run; [exact Hs| |exact Hr].
    exists (delete c t). split; [done|]. apply lookup_delete_eq.
Qed.

Lemma modal_slot_fulfilled_once_with_cog_witness :
  snd (dispatch 1 ex_submit ex_modal_state) = [(0, ev_interaction ex_submit)] /\
  ms_slots (fst (dispatch 1 ex_submit ex_modal_state)) !! 0 =
    Some (SDone (ev_interaction ex_submit)) /\
  dispatch 1 ex_submit (fst (dispatch 1 ex_submit ex_modal_state)) =
    (fst (dispatch 1 ex_submit ex_modal_state), []).
Proof.
  destruct (modal_slot_fulfilled_once_with_cog 1 ex_modal_state {["abc" := 0]} "abc" 0 0 ex_submit
              (fst (dispatch 1 ex_submit ex_modal_state)) (snd (dispatch 1 ex_submit ex_modal_state)))
    as (H1 & _ & H3 & H4); try reflexivity; try lia.
  - intros k Hk. simpl in Hk. simpl. rewrite lookup_singleton_ne; [reflexivity|lia].
  - split; [exact H1|]. split; [exact H3|].
    destruct (H4 [] (fst (dispatch 1 ex_submit ex_modal_state)) [] eq_refl) as (_ & _ & H5).
    apply H5; [intros m' []|reflexivity|reflexivity].
Defined.

Lemma dispatch_no_cog ev st : dispatch 0 ev st = (st, []).
Proof.
  unfold dispatch. simpl.
  destruct (bot_listener ev st) as [[r st1] f1] eqn:E.
  apply bot_listener_state in E as [-> ->]. done.
Qed.

(** C7 (code bug): with no slash_util [Cog] loaded, a submission only
    reaches [Bot._internal_interaction_handler], which reads [self.bot]
    and raises [AttributeError] before popping anything. So no dispatched
    event changes the modal state, and no run of steps fulfils any slot:
    the first matching submission neither removes the pending entry nor
    fulfils the slot. *)
Theorem C7_bot_listener_never_fulfils :
  (forall ev st, dispatch 0 ev st = (st, [])) /\
  (forall steps st, snd (run 0 steps st) = []).
Proof.
  split; [apply dispatch_no_cog|].
  induction steps as [|s steps IH]; intros st; [done|]. simpl.
  assert (Hs : snd (run_step 0 s st) = []).
  { destruct s; simpl; try done. by rewrite dispatch_no_cog. }
  destruct (run_step 0 s st) as [st1 f1]. simpl in Hs; subst f1.
  specialize (IH st1). destruct (run 0 steps st1) as [st2 f2]. simpl in *. by subst.
Qed.

(** C7 (counterexample): the modal pending under ["abc"] stays pending,
    and its slot unfulfilled, when a submission for ["abc"] is dispatched
    with no [Cog] loaded; with one [Cog] the same submission pops it. *)
Lemma C7_counterexample :
  let '(st1, f1) := dispatch 0 ex_submit ex_modal_state in
  f1 = [] /\ ms_modals st1 = Some {["abc" := 0]} /\ ms_slots st1 !! 0 = Some SPending /\
  let '(st2, f2) := dispatch 1 ex_submit ex_modal_state in
  f2 = [(0, ev_interaction ex_submit)] /\ ms_modals st2 = Some ∅.
Proof. vm_compute. repeat split. Qed.

(** ** C8: a second sync reproduces the first *)

Lemma Stable_ret {A} (a : A) : Stable (retM a).
Proof. intros d r d' [= <- <-]. by split. Qed.

Lemma Stable_raise {A} e : Stable (@raiseM A e).
Proof. intros d r d' [= <- <-]. by split. Qed.

Lemma Stable_of_option {A} e (o : option A) : Stable (of_option e o).
Proof. destruct o; [apply Stable_ret|apply Stable_raise]. Qed.

Lemma Stable_get_description name : Stable (get_description name).
Proof.
  intros d r d'. unfold get_description. destruct (d !! name) as [v|] eqn:E.
  - intros [= <- <-]. split; [done|]. intros e He.
    by rewrite (lookup_weaken d e name v E He).
  - intros [= <- <-]. split; [by apply insert_subseteq|]. intros e He.
    assert (Hl : <[name := default_description]> d !! name = Some default_description)
      by apply lookup_insert_eq.
    by rewrite (lookup_weaken _ e name _ Hl He).
Qed.

Lemma Stable_bind {A B} (m : M A) (k : A -> M B) :
  Stable m -> (forall a, Stable (k a)) -> Stable (bindM m k).
Proof.
  intros Hm Hk d r d'. unfold bindM.
  destruct (m d) as [[x|a] d1] eqn:E1.
  - intros [= <- <-]. destruct (Hm _ _ _ E1) as [Hs Hst]. split; [done|].
    intros e He. by rewrite (Hst e He).
  - intros E2. destruct (Hm _ _ _ E1) as [Hs1 Hst1]. destruct (Hk a _ _ _ E2) as [Hs2 Hst2].
    split; [by trans d1|]. intros e He. rewrite (Hst1 e) by (by trans d'). by apply Hst2.
Qed.

Ltac stable :=
  repeat match goal with
  | |- Stable (bindM _ _) => apply Stable_bind; [|intros]
  | |- Stable (retM _) => apply Stable_ret
  | |- Stable (raiseM _) => apply Stable_raise
  | |- Stable (of_option _ _) => apply Stable_of_option
  | |- Stable (get_description _) => apply Stable_get_description
  | |- Stable (match ?x with _ => _ end) => destruct x
  | |- Stable (if ?b then _ else _) => destruct b
  end.

Lemma Stable_real_type ann : Stable (real_type ann).
Proof. unfold real_type. stable. Qed.

Lemma Stable_map_channel_filter args : Stable (map_channel_filter args).
Proof. induction args as [|t r IH]; simpl; stable; done. Qed.

Lemma Stable_build_option p : Stable (build_option p).
Proof.
  unfold build_option. cbv zeta.
  destruct (p_annotation p); stable; try apply Stable_real_type; try apply Stable_map_channel_filter.
Qed.

Lemma Stable_build_options ps : Stable (build_options ps).
Proof. induction ps as [|p r IH]; simpl; stable; try apply Stable_build_option; done. Qed.

(** [_build_descriptions] overwrites a fixed set of keys, whatever the
    state it starts from. *)
Lemma build_descriptions_loop_shape ps pd :
  exists r (w : descs), forall e, build_descriptions_loop ps pd e = (r, w ∪ e).
Proof.
  induction pd as [|[k v] pd IH]; simpl.
  - exists (inr tt), ∅. intros e. by rewrite map_empty_union.
  - destruct (has_param ps k).
    + destruct IH as (r & w & Hw). exists r, (w ∪ {[k := v]}). intros e.
      unfold bindM, set_description. rewrite Hw.
      by rewrite insert_union_singleton_l, map_union_assoc.
    + exists (inl (TypeError "@describe used to describe a non-existant parameter")), ∅.
      intros e. by rewrite map_empty_union.
Qed.

Lemma descriptions_then_stable {A} ps pd (k : unit -> M A) d r d' :
  (forall u, Stable (k u)) ->
  bindM (build_descriptions_loop ps pd) k d = (r, d') ->
  forall e, d' ⊆ e -> bindM (build_descriptions_loop ps pd) k e = (r, e).
Proof.
  intros Hk. destruct (build_descriptions_loop_shape ps pd) as (r0 & w & Hw).
  unfold bindM. intros E e He. rewrite Hw in E |- *. destruct r0 as [x|[]].
  - injection E as <- <-. f_equal.
    apply map_subseteq_union. trans (w ∪ d); [apply map_union_subseteq_l|done].
  - destruct (Hk tt _ _ _ E) as [Hs Hst].
    rewrite map_subseteq_union; [by apply Hst|].
    trans (w ∪ d); [apply map_union_subseteq_l|]. by trans d'.
Qed.

Lemma build_command_payload_stable c d r d' :
  build_command_payload c d = (r, d') ->
  forall e, d' ⊆ e -> build_command_payload c e = (r, e).
Proof.
  apply descriptions_then_stable. intros _. cbv zeta.
  destruct (sc_parameters c); stable; apply Stable_build_options.
Qed.

Lemma build_body_idem o r o' : build_body o = (r, o') -> build_body o' = (r, o').
Proof.
  unfold build_body. destruct o as [[sc| |] d]; simpl; [|by intros [= <- <-]..].
  destruct (build_command_payload sc d) as [r0 d'] eqn:E. intros [= <- <-]. simpl.
  by rewrite (build_command_payload_stable sc d r0 d' E d').
Qed.

Lemma build_body_cmd o r o' : build_body o = (r, o') -> co_cmd o' = co_cmd o.
Proof.
  unfold build_body. destruct o as [[sc| |] d]; simpl; [|by intros [= _ <-]..].
  destruct (build_command_payload sc d). by intros [= _ <-].
Qed.

Lemma sync_members_app l1 l2 acc h :
  sync_members (l1 ++ l2) acc h =
    match sync_members l1 acc h with
    | (inl e, h') => (inl e, h')
    | (inr acc', h') => sync_members l2 acc' h'
    end.
Proof.
  revert acc h. induction l1 as [|i l1 IH]; intros acc h; simpl; [done|].
  destruct (h !! i) as [o|]; [|apply IH].
  destruct (build_body o) as [[e|body] o']; [done|apply IH].
Qed.

Lemma sync_cogs_members cogs acc h :
  sync_cogs cogs acc h =
    sync_members (flat_map (fun c => if is_slash_cog c then cog_members c else []) cogs) acc h.
Proof.
  revert acc h. induction cogs as [|c cogs IH]; intros acc h; simpl; [done|].
  destruct (is_slash_cog c); simpl; [|apply IH].
  rewrite sync_members_app. destruct (sync_members (cog_members c) acc h) as [[e|acc'] h']; [done|].
  apply IH.
Qed.

Lemma sync_members_none ms acc h res h' i :
  sync_members ms acc h = (res, h') -> h !! i = None -> h' !! i = None.
Proof.
  revert acc h. induction ms as [|j ms IH]; intros acc h; simpl; [by intros [= _ <-]|].
  destruct (h !! j) as [o|] eqn:Ej; [|apply IH].
  intros E Hi. assert (i <> j) by congruence.
  destruct (build_body o) as [[e|body] o'].
  - injection E as _ <-. by rewrite lookup_insert_ne.
  - eapply IH; [exact E|]. by rewrite lookup_insert_ne.
Qed.

(** An entry whose command is already built to a fixed point is left as
    it is by a later loop. *)
Lemma sync_members_fixed ms acc h res h' i o r :
  build_body o = (r, o) ->
  sync_members ms acc h = (res, h') -> h !! i = Some o -> h' !! i = Some o.
Proof.
  intros Ho. revert acc h. induction ms as [|j ms IH]; intros acc h; simpl; [by intros [= _ <-]|].
  destruct (h !! j) as [oj|] eqn:Ej; [|apply IH].
  intros E Hi.
  destruct (build_body oj) as [res' o'] eqn:Eb.
  assert (Hi1 : <[j := o']> h !! i = Some o).
  { destruct (decide (j = i)) as [->|Hne].
    - rewrite Hi in Ej. injection Ej as <-. rewrite Ho in Eb. injection Eb as _ <-.
      apply lookup_insert_eq.
    - by rewrite lookup_insert_ne. }
  destruct res' as [e|body].
  - by injection E as _ <-.
  - by eapply IH.
Qed.

Lemma sync_members_idem ms acc h res h' :
  sync_members ms acc h = (res, h') -> sync_members ms acc h' = (res, h').
Proof.
  revert acc h. induction ms as [|i ms IH]; intros acc h; simpl; [by intros [= <- <-]|].
  destruct (h !! i) as [o|] eqn:Ei.
  - destruct (build_body o) as [[e|body] o'] eqn:Eb; intros E.
    + injection E as <- <-. rewrite lookup_insert_eq.
      rewrite (build_body_idem _ _ _ Eb). by rewrite insert_insert_eq.
    + pose proof (build_body_idem _ _ _ Eb) as Eb'.
      pose proof (sync_members_fixed _ _ _ _ _ i o' _ Eb' E (lookup_insert_eq _ _ _)) as Hi.
      rewrite Hi, Eb'. rewrite insert_id by done. rewrite (build_body_cmd _ _ _ Eb).
      apply (IH _ _ E).
  - intros E. rewrite (sync_members_none _ _ _ _ _ i E Ei). apply (IH _ _ E).
Qed.

(** C8: running [sync_commands] a second time over the same cogs, on the
    command objects as the first run left them, makes the same uploads
    (the same global payload and the same payload for each guild, in the
    same order), or raises the same error, and leaves the objects as the
    first run left them. *)
Theorem C8_sync_commands_idempotent application_id cogs h :
  sync_commands application_id cogs (snd (sync_commands application_id cogs h)) =
  sync_commands application_id cogs h.
Proof.
  unfold sync_commands. destruct application_id as [app|]; [|done]. simpl.
  destruct (Z.eqb app 0); [done|].
  rewrite !sync_cogs_members.
  destruct (sync_members _ [] h) as [r h'] eqn:E. simpl.
  by rewrite (sync_members_idem _ _ _ _ _ E).
Qed.

(** * Further properties of the code *)

(** ** [TextInput] and [Modal] *)

(** X1: [TextInput.__init__] succeeds exactly when [min_length], if
    given, is at least 0 and [max_length], if given, lies in [1, 4000];
    it then stores its arguments unchanged (a missing [custom_id] being
    the random one). Otherwise it raises a [ValueError]. It never compares
    [min_length] with [max_length]. *)
Theorem TextInput_new_validation label style custom_id rnd min_length max_length required
    default_value placeholder :
  match TextInput_new label style custom_id rnd min_length max_length required default_value placeholder with
  | inr t =>
      text_input_bounds min_length max_length /\
      t = mkTextInput style (match custom_id with Some c => c | None => rnd end) label required
            default_value placeholder min_length max_length
  | inl e => (exists msg, e = ValueError msg) /\ ~ text_input_bounds min_length max_length
  end.
Proof.
  unfold TextInput_new, text_input_bounds.
  destruct min_length as [a|]; [destruct (a <? 0)%Z eqn:Ea|]; simpl;
    [|destruct max_length as [b|]; [destruct ((4000 <? b) || (b <? 1))%Z eqn:Eb|]; simpl..];
    rewrite ?Z.ltb_lt, ?Z.ltb_ge, ?orb_true_iff, ?orb_false_iff, ?Z.ltb_lt, ?Z.ltb_ge in *.
  all: first
    [ split; [by eexists|]; intros [Ha Hb];
      first [specialize (Ha _ eq_refl); lia | specialize (Hb _ eq_refl); lia]
    | split; [|done]; split; intros ? H; inversion H; subst; lia ].
Qed.

Section PyDict.
Context {V : Type}.

Lemma pyd_get_set_eq k v (d : list (string * V)) : pyd_get k (pyd_set k v d) = Some v.
Proof.
  induction d as [|[k' v'] r IH]; simpl; [by rewrite String.eqb_refl|].
  destruct (String.eqb k k') eqn:E; simpl; [by rewrite String.eqb_refl|by rewrite E].
Qed.

Lemma pyd_get_set_ne c k v (d : list (string * V)) :
  c <> k -> pyd_get c (pyd_set k v d) = pyd_get c d.
Proof.
  intros Hne. apply String.eqb_neq in Hne as Hne'.
  induction d as [|[k' v'] r IH]; simpl; [by rewrite Hne'|].
  destruct (String.eqb k k') eqn:E; simpl.
  - apply String.eqb_eq in E as <-. by rewrite Hne'.
  - by rewrite IH.
Qed.

Lemma pyd_get_pop_ne c k (d : list (string * V)) :
  c <> k -> pyd_get c (pyd_pop k d) = pyd_get c d.
Proof.
  intros Hne. induction d as [|[k' v'] r IH]; simpl; [done|].
  destruct (String.eqb k k') eqn:E; simpl.
  - apply String.eqb_eq in E as <-. apply String.eqb_neq in Hne. by rewrite Hne.
  - by rewrite IH.
Qed.

Lemma pyd_get_notin k (d : list (string * V)) : k ∉ map fst d -> pyd_get k d = None.
Proof.
  induction d as [|[k' v'] r IH]; simpl; [done|].
  intros Hn. destruct (String.eqb k k') eqn:E.
  - apply String.eqb_eq in E as <-. destruct Hn. left.
  - apply IH. intros Hin. apply Hn. by right.
Qed.

Lemma pyd_get_pop_eq k (d : list (string * V)) :
  NoDup (map fst d) -> pyd_get k (pyd_pop k d) = None.
Proof.
  induction d as [|[k' v'] r IH]; simpl; [done|].
  intros Hnd. apply NoDup_cons in Hnd as [Hn Hnd].
  destruct (String.eqb k k') eqn:E; simpl.
  - apply String.eqb_eq in E as <-. by apply pyd_get_notin.
  - rewrite E. by apply IH.
Qed.

Lemma pyd_set_keys k v (d : list (string * V)) :
  map fst (pyd_set k v d) = if decide (k ∈ map fst d) then map fst d else map fst d ++ [k].
Proof.
  induction d as [|[k' v'] r IH]; simpl; [done|].
  destruct (String.eqb k k') eqn:E; simpl.
  - apply String.eqb_eq in E as <-. rewrite decide_True; [done|left].
  - apply String.eqb_neq in E. rewrite IH.
    destruct (decide (k ∈ map fst r)) as [Hin|Hn].
    + rewrite decide_True; [done|by right].
    + rewrite decide_False; [done|]. intros Hin. apply elem_of_cons in Hin as [|]; done.
Qed.

Lemma pyd_pop_keys_sub k (d : list (string * V)) x :
  x ∈ map fst (pyd_pop k d) -> x ∈ map fst d.
Proof.
  induction d as [|[k' v'] r IH]; simpl; [done|].
  destruct (String.eqb k k'); simpl; [by right|].
  intros Hx. apply elem_of_cons in Hx as [->|Hx]; [left|right; by apply IH].
Qed.

Lemma pyd_set_nodup k v (d : list (string * V)) :
  NoDup (map fst d) -> NoDup (map fst (pyd_set k v d)).
Proof.
  intros Hnd. rewrite pyd_set_keys. destruct (decide (k ∈ map fst d)) as [|Hn]; [done|].
  apply NoDup_app. split; [done|]. split; [|apply NoDup_singleton].
  intros x Hx Hx'. apply list_elem_of_singleton in Hx' as ->. done.
Qed.

Lemma pyd_pop_nodup k (d : list (string * V)) :
  NoDup (map fst d) -> NoDup (map fst (pyd_pop k d)).
Proof.
  induction d as [|[k' v'] r IH]; simpl; [done|].
  intros Hnd. apply NoDup_cons in Hnd as [Hn Hnd].
  destruct (String.eqb k k'); simpl; [done|].
  apply NoDup_cons. split; [|by apply IH]. intros Hin. apply Hn. by eapply pyd_pop_keys_sub.
Qed.

Lemma pyd_set_Forall (P : string * V -> Prop) k v (d : list (string * V)) :
  P (k, v) -> Forall P d -> Forall P (pyd_set k v d).
Proof.
  intros Hk. induction 1 as [|[k' v'] r Hx Hr IH]; simpl; [by constructor|].
  destruct (String.eqb k k'); constructor; done.
Qed.

Lemma pyd_pop_Forall (P : string * V -> Prop) k (d : list (string * V)) :
  Forall P d -> Forall P (pyd_pop k d).
Proof.
  induction 1 as [|[k' v'] r Hx Hr IH]; simpl; [by constructor|].
  destruct (String.eqb k k'); [done|]. by constructor.
Qed.

Lemma pyd_get_Forall (P : string * V -> Prop) k v (d : list (string * V)) :
  Forall P d -> pyd_get k d = Some v -> P (k, v).
Proof.
  induction 1 as [|[k' v'] r Hx Hr IH]; simpl; [done|].
  destruct (String.eqb k k') eqn:E; [|done].
  apply String.eqb_eq in E as <-. by intros [= <-].
Qed.

(** [d[k] = v] on a key already present rewrites its entry in place. *)
Lemma pyd_set_present {B} (f : V -> B) k v (d : list (string * V)) :
  NoDup (map fst d) -> k ∈ map fst d ->
  map (fun kv => f kv.2) (pyd_set k v d) =
  map (fun kv => if String.eqb kv.1 k then f v else f kv.2) d.
Proof.
  induction d as [|[k' v'] r IH]; simpl; [intros _ Hin; by apply elem_of_nil in Hin|].
  intros Hnd Hin. apply NoDup_cons in Hnd as [Hn Hnd]. rewrite (String.eqb_sym k' k).
  destruct (String.eqb k k') eqn:E; simpl.
  - apply String.eqb_eq in E as <-. f_equal.
    apply map_ext_in. intros [x y] Hxy. simpl. destruct (String.eqb x k) eqn:Ex; [|done].
    apply String.eqb_eq in Ex as ->. destruct Hn. apply list_elem_of_In.
    apply in_map_iff. by exists (k, y).
  - f_equal. apply IH; [done|]. apply elem_of_cons in Hin as [->|]; [|done].
    by rewrite String.eqb_refl in E.
Qed.

(** ... and on a new key appends an entry. *)
Lemma pyd_set_absent k v (d : list (string * V)) :
  k ∉ map fst d -> pyd_set k v d = d ++ [(k, v)].
Proof.
  induction d as [|[k' v'] r IH]; simpl; [done|].
  intros Hn. destruct (String.eqb k k') eqn:E.
  - apply String.eqb_eq in E as <-. destruct Hn. left.
  - f_equal. apply IH. intros Hin. apply Hn. by right.
Qed.

Lemma pyd_get_elem k (d : list (string * V)) : k ∈ map fst d -> is_Some (pyd_get k d).
Proof.
  induction d as [|[k' v'] r IH]; simpl; [intros Hin; by apply elem_of_nil in Hin|].
  intros Hin. destruct (String.eqb k k') eqn:E; [by eexists|].
  apply IH. apply elem_of_cons in Hin as [->|]; [|done]. by rewrite String.eqb_refl in E.
Qed.

End PyDict.

Lemma items_ok_set it d : items_ok d -> items_ok (pyd_set (ti_custom_id it) it d).
Proof.
  intros [Hnd Hf]. split; [by apply pyd_set_nodup|]. by apply pyd_set_Forall.
Qed.

Lemma items_ok_pop k d : items_ok d -> items_ok (pyd_pop k d).
Proof. intros [Hnd Hf]. split; [by apply pyd_pop_nodup|]. by apply pyd_pop_Forall. Qed.

Lemma items_ok_modal_after title custom_id rnd items ops :
  items_ok (md_items (modal_after title custom_id rnd items ops)).
Proof.
  unfold modal_after. cut (forall m, items_ok (md_items m) -> items_ok (md_items (fold_left apply_item_op ops m))).
  - intros H. apply H. simpl. unfold items_dict.
    cut (forall d, items_ok d -> items_ok (fold_left (fun d it => pyd_set (ti_custom_id it) it d) items d)).
    + intros H'. apply H'. split; constructor.
    + induction items as [|it r IH]; simpl; [done|]. intros d Hd. apply IH. by apply items_ok_set.
  - induction ops as [|[it|it] ops IH]; simpl; [done|..]; intros m Hm; apply IH; simpl.
    + by apply items_ok_set.
    + by apply items_ok_pop.
Qed.

(** X2: on a modal built by [Modal(...)] and any sequence of [add_item]
    and [remove_item] calls, [get_item(c)] returns only an item whose
    custom id is [c]; after [add_item(it)], [get_item(it.custom_id)] is
    [it]; after [remove_item(it)] it is [None]; and both calls leave every
    other custom id as it was. *)
Theorem modal_items_get_add_remove title custom_id rnd items ops it c :
  let m := modal_after title custom_id rnd items ops in
  (forall x, get_item m c = Some x -> ti_custom_id x = c) /\
  get_item (add_item m it) (ti_custom_id it) = Some it /\
  get_item (remove_item m it) (ti_custom_id it) = None /\
  (c <> ti_custom_id it ->
   get_item (add_item m it) c = get_item m c /\ get_item (remove_item m it) c = get_item m c).
Proof.
  intros m. pose proof (items_ok_modal_after title custom_id rnd items ops) as [Hnd Hf].
  fold m in Hnd, Hf. unfold get_item, add_item, remove_item; simpl.
  split; [|split; [|split]].
  - intros x Hx. exact (pyd_get_Forall (fun kv => ti_custom_id kv.2 = kv.1) _ _ _ Hf Hx).
  - apply pyd_get_set_eq.
  - by apply pyd_get_pop_eq.
  - intros Hne. split; [by apply pyd_get_set_ne|by apply pyd_get_pop_ne].
Qed.

(** X3: on such a modal, [add_item(it)] with a custom id not yet present
    appends one action row for [it] at the end of [to_dict()]'s
    components; with a custom id already present it replaces that item's
    row in place and keeps the number and order of rows. *)
Theorem modal_to_dict_add_item title custom_id rnd items ops it :
  let m := modal_after title custom_id rnd items ops in
  dict_get "components" (Modal_to_dict (add_item m it)) =
  Some (JList (match get_item m (ti_custom_id it) with
               | None => map (fun kv => item_row kv.2) (md_items m) ++ [item_row it]
               | Some _ => map (fun kv => if String.eqb kv.1 (ti_custom_id it) then item_row it
                                          else item_row kv.2) (md_items m)
               end)).
Proof.
  intros m. pose proof (items_ok_modal_after title custom_id rnd items ops) as [Hnd _].
  fold m in Hnd. unfold Modal_to_dict, add_item, get_item; simpl.
  destruct (decide (ti_custom_id it ∈ map fst (md_items m))) as [Hin|Hn].
  - destruct (pyd_get_elem _ _ Hin) as [x ->]. by rewrite (pyd_set_present item_row).
  - rewrite (pyd_get_notin _ _ Hn). rewrite (pyd_set_absent _ _ _ Hn), map_app. done.
Qed.

(** ** [Modal.parse_interaction] *)

Lemma jd_set_fresh c v (acc : list (string * string)) :
  c ∉ map fst acc ->
  jd_set (JStr c) v (map submission_pair acc) = map submission_pair acc ++ [(JStr c, v)].
Proof.
  induction acc as [|[c' v'] r IH]; simpl; [done|].
  intros Hn. destruct (String.eqb c c') eqn:E.
  - apply String.eqb_eq in E as <-. destruct Hn. left.
  - f_equal. apply IH. intros Hin. apply Hn. by right.
Qed.

Lemma parse_rows_submissions (l acc : list (string * string)) :
  NoDup (map fst (acc ++ l)) ->
  parse_rows (map submission_row l) (map submission_pair acc) = inr (map submission_pair (acc ++ l)).
Proof.
  revert acc. induction l as [|[c v] l IH]; intros acc Hnd; simpl.
  - by rewrite app_nil_r.
  - rewrite jd_set_fresh.
    + replace (map submission_pair acc ++ [(JStr c, JStr v)]) with (map submission_pair (acc ++ [(c, v)]))
        by (rewrite map_app; done).
      replace (acc ++ (c, v) :: l) with ((acc ++ [(c, v)]) ++ l) in * by (rewrite <- app_assoc; done).
      by apply IH.
    + rewrite map_app in Hnd. simpl in Hnd. apply NoDup_app in Hnd as (_ & Hd & _).
      intros Hin. apply (Hd c Hin). left.
Qed.

Lemma parse_rows_prefix (l : list (string * string)) acc :
  exists acc', parse_rows (map submission_row l) acc = parse_rows [] acc' /\
    forall rest, parse_rows (map submission_row l ++ rest) acc = parse_rows rest acc'.
Proof.
  revert acc. induction l as [|[c v] l IH]; intros acc; simpl.
  - exists acc. split; [done|]. intros rest. done.
  - destruct (IH (jd_set (JStr c) (JStr v) acc)) as (acc' & H1 & H2).
    exists acc'. split; [exact H1|]. intros rest. apply H2.
Qed.

(** X4: when the submission's [components] are one action row per text
    input, each holding its custom id and value, and the custom ids are
    distinct, [parse_interaction] returns the mapping from each custom id
    to its value, in the order of the rows. *)
Theorem parse_interaction_submission g data l :
  dict_get "components" data = Some (JList (map submission_row l)) ->
  NoDup (map fst l) ->
  parse_interaction (mkInteraction g data) = inr (map submission_pair l).
Proof.
  intros Hc Hnd. unfold parse_interaction, py_getitem_str; simpl. rewrite Hc; simpl.
  apply (parse_rows_submissions l []). exact Hnd.
Qed.

(** X5: [parse_interaction] raises [KeyError] when the interaction data
    has no [components] key, and [IndexError] when a row, after any number
    of well-formed rows, has an empty [components] list. *)
Theorem parse_interaction_errors g data pre r rest :
  (dict_get "components" data = None -> parse_interaction (mkInteraction g data) = inl KeyError) /\
  (dict_get "components" r = Some (JList []) ->
   dict_get "components" data = Some (JList (map submission_row pre ++ JObj r :: rest)) ->
   parse_interaction (mkInteraction g data) = inl IndexError).
Proof.
  split.
  - intros Hc. unfold parse_interaction, py_getitem_str; simpl. by rewrite Hc.
  - intros Hr Hc. unfold parse_interaction, py_getitem_str; simpl. rewrite Hc; simpl.
    destruct (parse_rows_prefix pre []) as (acc' & _ & H2). rewrite H2. simpl.
    unfold py_getitem_str. by rewrite Hr.
Qed.

Lemma reset_new_modal m st k :
  ms_response st !! m = Some k -> exists st0, reset m st = new_modal m st0.
Proof.
  intros Hm. unfold reset. rewrite Hm. by eexists.
Qed.

(** X6: after [reset()] on a modal, [is_done()] is false and [response]
    raises [RuntimeError]; once the modal is sent again under a custom id
    and a submission with that custom id is dispatched (with at least one
    cog loaded), [is_done()] is true and [response] is
    [parse_interaction] of the submitted interaction. *)
Theorem modal_reset_send_submit ncogs st m k c ev :
  ms_response st !! m = Some k -> 1 <= ncogs -> ev_type ev = 5%Z ->
  dict_get "custom_id" (i_data (ev_interaction ev)) = Some (JStr c) ->
  let st1 := reset m st in
  let st2 := fst (dispatch ncogs ev (send_modal c m st1)) in
  modal_is_done m st1 = false /\
  modal_response m st1 = inl (RuntimeError "Modal has not received a response.") /\
  modal_is_done m st2 = true /\
  modal_response m st2 = parse_interaction (ev_interaction ev).
Proof.
  intros Hm Hn Hty Hid st1 st2.
  destruct (reset_new_modal m st k Hm) as [st0 E0].
  assert (H1 : ms_response st1 !! m = Some (ms_next st0)).
  { unfold st1. rewrite E0. apply lookup_insert_eq. }
  assert (H2 : ms_slots st1 !! ms_next st0 = Some SPending).
  { unfold st1. rewrite E0. apply lookup_insert_eq. }
  destruct ncogs as [|n]; [lia|].
  set (t := <[c := m]> (match ms_modals st1 with Some t => t | None => ∅ end)).
  assert (Hd : dispatch (S n) ev (send_modal c m st1) =
     (with_slot (with_modals (send_modal c m st1) (delete c t)) (ms_next st0) (SDone (ev_interaction ev)),
      [(ms_next st0, ev_interaction ev)])).
  { apply (dispatch_first c n t m (ms_next st0)); try done. apply lookup_insert_eq. }
  unfold st2. rewrite Hd. simpl.
  unfold modal_is_done, modal_response. rewrite H1, H2. simpl.
  rewrite H1, lookup_insert_eq. done.
Qed.

(** X7: when [wait()] on a pending modal times out, the future is
    cancelled: [is_done()] is true and [response] raises [CancelledError].
    With at least one slash_util [Cog] loaded, a later submission for the
    modal's custom id removes the modal from the pending table but
    delivers nothing: the state is otherwise unchanged and [response]
    still raises [CancelledError]. *)
Theorem modal_timeout_then_submit ncogs st t c m k ev :
  ms_modals st = Some t -> t !! c = Some m -> ms_response st !! m = Some k ->
  ms_slots st !! k = Some SPending -> 1 <= ncogs -> ev_type ev = 5%Z ->
  dict_get "custom_id" (i_data (ev_interaction ev)) = Some (JStr c) ->
  let st1 := wait_timeout m st in
  modal_is_done m st1 = true /\
  modal_response m st1 = inl (BaseOnly "CancelledError") /\
  dispatch ncogs ev st1 = (with_modals st1 (delete c t), []) /\
  modal_response m (with_modals st1 (delete c t)) = inl (BaseOnly "CancelledError").
Proof.
  intros Ht Hc Hm Hk Hn Hty Hid st1.
  assert (E1 : st1 = with_slot st k (SFailed (BaseOnly "CancelledError"))).
  { unfold st1, wait_timeout. by rewrite Hm, Hk. }
  assert (Hr : ms_response st1 !! m = Some k) by (rewrite E1; exact Hm).
  assert (Hs : ms_slots st1 !! k = Some (SFailed (BaseOnly "CancelledError")))
    by (rewrite E1; apply lookup_insert_eq).
  assert (Ht1 : ms_modals st1 = Some t) by (rewrite E1; exact Ht).
  unfold modal_is_done, modal_response. simpl. rewrite Hr, Hs.
  split; [done|]. split; [done|]. split; [|done].
  destruct ncogs as [|n]; [lia|]. unfold dispatch. simpl.
  destruct (bot_listener ev st1) as [[r0 st0] f0] eqn:E.
  apply bot_listener_state in E as [-> ->]. simpl.
  unfold cog_listener at 1. rewrite Hty, Ht1, Hid. simpl. rewrite Hc.
  rewrite (with_modals_same st1 t) by done. unfold set_result. simpl. rewrite Hr, Hs.
  rewrite (cogs_noop c n ev); [done| |done|done].
  exists (delete c t). split; [done|]. apply lookup_delete_eq.
Qed.

(** *** Instances of the modal properties *)

Lemma parse_interaction_submission_witness :
  parse_interaction (mkInteraction true [("components", JList (map submission_row [("name", "Ann"); ("age", "7")]))]) =
  inr [(JStr "name", JStr "Ann"); (JStr "age", JStr "7")].
Proof.
  apply (parse_interaction_submission true _ [("name", "Ann"); ("age", "7")]);
    [reflexivity|apply (bool_decide_unpack _); vm_compute; reflexivity].
Defined.

Lemma modal_reset_send_submit_witness :
  let ev := mkEvent 5 (mkInteraction true [("custom_id", JStr "abc");
                                         ("components", JList (map submission_row [("name", "Ann")]))]) in
  let st1 := reset 0 ex_modal_state in
  let st2 := fst (dispatch 1 ev (send_modal "abc" 0 st1)) in
  modal_is_done 0 st1 = false /\
  modal_response 0 st1 = inl (RuntimeError "Modal has not received a response.") /\
  modal_is_done 0 st2 = true /\
  modal_response 0 st2 = parse_interaction (ev_interaction ev).
Proof.
  intros ev. apply (modal_reset_send_submit 1 ex_modal_state 0 0 "abc" ev); [reflexivity|lia|reflexivity|reflexivity].
Defined.

Lemma modal_timeout_then_submit_witness :
  let st1 := wait_timeout 0 ex_modal_state in
  modal_is_done 0 st1 = true /\
  modal_response 0 st1 = inl (BaseOnly "CancelledError") /\
  dispatch 1 ex_submit st1 = (with_modals st1 (delete "abc" {["abc" := 0]}), []) /\
  modal_response 0 (with_modals st1 (delete "abc" {["abc" := 0]})) = inl (BaseOnly "CancelledError").
Proof.
  apply (modal_timeout_then_submit 1 ex_modal_state {["abc" := 0]} "abc" 0 0 ex_submit);
    [reflexivity|reflexivity|reflexivity|reflexivity|lia|reflexivity|reflexivity].
Defined.

(** ** [handle_message_parameters] (_patch.py 22-126) *)

Lemma let_inv {A B} (v : A) (F : A -> B) (y : B) :
  (let x := v in F x) = y -> exists x, x = v /\ F x = y.
Proof. intros E. exists v. split; [done|exact E]. Qed.

(** Peels the first [let] of an equation [let x := v in F x = y]. *)
Ltac let_inv_in H x E :=
  lazymatch type of H with
  | (let y := ?v in @?F y) = ?z => apply (let_inv v F z) in H as (x & E & H); cbv beta in H
  end.

(** Case analysis on the matches of the goal only. *)
Ltac goal_match :=
  match goal with
  | |- context [match ?x with _ => _ end] => destruct x
  end.

Ltac gen_hmp :=
  match goal with |- context [handle_message_parameters ?x] => generalize (handle_message_parameters x); intros ? end.

Section MessageParameterFacts.
Context `{DiscordObjects}.

Lemma imap_file_parts (g : nat -> string) (l : list File) :
  imap (fun n x => MPFile (g n) x) l = zip_with MPFile (map g (seq 0 (length l))) l.
Proof.
  revert g. induction l as [|x l IH]; intros g; [done|].
  rewrite imap_cons. simpl. f_equal.
  rewrite <- seq_shift, map_map. apply (IH (fun n => g (S n))).
Qed.

Lemma hmp_error_kind (a : hmp_args) e :
  handle_message_parameters a = inl e ->
  (exists msg, e = TypeError msg) \/ e = OtherException "InvalidArgument".
Proof.
  destruct a as [content username avatar tts eph file files embed embeds view am prev typ att modal].
  destruct modal as [|md].
  2: { cbv beta iota zeta delta [handle_message_parameters h_modal]. intros He; discriminate He. }
  destruct files as [|[|f0 fs]], file as [|f], att as [|atl], embeds as [|es], embed as [|eb].
  all: cbv beta iota delta [handle_message_parameters h_modal h_files h_file h_attachments h_embeds h_embed is_given andb orb].
  all: try (destruct (10 <? length es)%nat; cbv beta iota delta [orb]).
  all: intros He; first [discriminate He | injection He as <-; first [left; eexists; reflexivity | right; reflexivity]].
Qed.

Lemma hmp_payload_shape (a : hmp_args) r :
  handle_message_parameters a = inr r -> h_modal a = Missing ->
  exists body,
    dict_get "content" body =
      match h_content a with Given LNone => Some JNull | Given c => Some (JStr (py_str c)) | Missing => None end /\
    dict_get "tts" body = Some (JBool (h_tts a)) /\
    dict_get "flags" body = (if h_ephemeral a then Some (JInt 64) else None) /\
    let payload := match h_type a with Given t => [("type", JInt t); ("data", JObj body)] | Missing => body end in
    let files := match h_file a with Given f => Given [f] | Missing => h_files a end in
    r = match files with
        | Given ((_ :: _) as l) =>
            mkEWP None (Some (MPJson "payload_json" payload :: zip_with MPFile (file_part_names (length l)) l))
                  (Some files)
        | _ => mkEWP (Some payload) (Some []) (Some files)
        end.
Proof.
  intros Hr Hm.
  destruct a as [content username avatar tts eph file files embed embeds view am prev typ att modal].
  simpl in Hm; subst modal. cbn [h_content h_tts h_ephemeral h_type h_file h_files].
  cbv beta iota delta [handle_message_parameters h_modal h_files h_file h_attachments h_embeds h_embed
    h_content h_view h_tts h_avatar_url h_username h_ephemeral h_allowed_mentions
    h_previous_allowed_mentions h_type] in Hr.
  destruct (is_given files && is_given file); [discriminate Hr|].
  destruct ((is_given file || is_given files) && is_given att); [discriminate Hr|].
  destruct (is_given embeds && is_given embed); [discriminate Hr|].
  destruct embeds as [|es]; [|destruct (10 <? length es)%nat; [discriminate Hr|]];
  cbv beta iota delta [bind_E] in Hr.
  all: rename Hr into Hr'.
  all: let_inv_in Hr' p0 E0. all: let_inv_in Hr' p1 E1. all: let_inv_in Hr' p2 E2. all: let_inv_in Hr' p3 E3.
  all: let_inv_in Hr' p4 E4. all: let_inv_in Hr' p5 E5. all: let_inv_in Hr' p6 E6. all: let_inv_in Hr' p7 E7.
  all: let_inv_in Hr' p8 E8. all: let_inv_in Hr' p9 E9. all: let_inv_in Hr' fl Efl.
  all: exists p8.
  all: assert (G8 : forall k, k <> "attachments" -> dict_get k p8 = dict_get k p7) by (intros k Hk; rewrite E8; destruct att; [done|]; apply dict_get_set_ne; by apply String.eqb_neq).
  all: assert (G7 : forall k, k <> "allowed_mentions" -> dict_get k p7 = dict_get k p6) by (intros k Hk; apply String.eqb_neq in Hk; rewrite E7; repeat goal_match; rewrite ?dict_get_set_ne; done).
  all: assert (G6 : dict_get "flags" p6 = if eph then Some (JInt 64) else dict_get "flags" p5) by (rewrite E6; destruct eph; [apply dict_get_set_eq|done]).
  all: assert (G6' : forall k, k <> "flags" -> dict_get k p6 = dict_get k p5) by (intros k Hk; apply String.eqb_neq in Hk; rewrite E6; destruct eph; rewrite ?dict_get_set_ne; done).
  all: assert (G5 : forall k, k <> "username" -> dict_get k p5 = dict_get k p4) by (intros k Hk; apply String.eqb_neq in Hk; rewrite E5; repeat goal_match; rewrite ?dict_get_set_ne; done).
  all: assert (G4 : forall k, k <> "avatar_url" -> dict_get k p4 = dict_get k p3) by (intros k Hk; apply String.eqb_neq in Hk; rewrite E4; repeat goal_match; rewrite ?dict_get_set_ne; done).
  all: assert (G3 : dict_get "tts" p3 = Some (JBool tts)) by (rewrite E3; apply dict_get_set_eq).
  all: assert (G3' : forall k, k <> "tts" -> dict_get k p3 = dict_get k p2) by (intros k Hk; apply String.eqb_neq in Hk; rewrite E3; by rewrite dict_get_set_ne).
  all: assert (G2 : forall k, k <> "components" -> dict_get k p2 = dict_get k p1) by (intros k Hk; apply String.eqb_neq in Hk; rewrite E2; repeat goal_match; rewrite ?dict_get_set_ne; done).
  all: assert (G1 : dict_get "content" p1 =
      match content with Given LNone => Some JNull | Given c => Some (JStr (py_str c)) | Missing => dict_get "content" p0 end) by (rewrite E1; repeat goal_match; rewrite ?dict_get_set_eq; done).
  all: assert (G1' : forall k, k <> "content" -> dict_get k p1 = dict_get k p0) by (intros k Hk; apply String.eqb_neq in Hk; rewrite E1; repeat goal_match; rewrite ?dict_get_set_ne; done).
  all: assert (G0 : forall k, k <> "embeds" -> dict_get k p0 = None) by (intros k Hk; apply String.eqb_neq in Hk; rewrite E0;
    repeat goal_match; rewrite ?dict_get_set_ne; done).
  all: split; [|split; [|split]].
  1,5: rewrite G8, G7, G6', G5, G4, G3', G2, G1 by done; rewrite G0 by done; by destruct content as [|[]].
  1,4: rewrite G8, G7, G6', G5, G4 by done; exact G3.
  1,3: rewrite G8, G7, G6 by done; destruct eph; [done|];
    rewrite G5, G4, G3', G2, G1', G0 by done; done.
  all: cbv zeta; subst p9 fl.
  all: destruct (match file with Given f => Given [f] | Missing => files end) as [|[|f l]];
    injection Hr' as <-; [done|done|].
  all: do 4 f_equal; unfold file_part_names.
  all: cbn [length Nat.eqb]; destruct (length l =? 0)%nat; [done|].
  all: transitivity (imap (fun n x => MPFile ("file" +:+ pretty n) x) (f :: l));
    [by rewrite imap_cons | apply (imap_file_parts (fun i => "file" +:+ pretty i))].
Qed.

Lemma hmp_json_payload (a : hmp_args) r :
  handle_message_parameters a = inr r -> h_modal a = Missing ->
  exists body,
    dict_get "content" body =
      match h_content a with Given LNone => Some JNull | Given c => Some (JStr (py_str c)) | Missing => None end /\
    dict_get "tts" body = Some (JBool (h_tts a)) /\
    dict_get "flags" body = (if h_ephemeral a then Some (JInt 64) else None) /\
    ewp_json_payload r = Some (match h_type a with Given t => [("type", JInt t); ("data", JObj body)] | Missing => body end).
Proof.
  intros Hr Hm. destruct (hmp_payload_shape a r Hr Hm) as (body & G1 & G2 & G3 & G4).
  exists body. split; [done|split; [done|split; [done|]]].
  cbv zeta in G4. rewrite G4.
  destruct (match h_file a with Given f => Given [f] | Missing => h_files a end) as [|[|f l]]; done.
Qed.

(** X8: [handle_message_parameters] fails exactly when no modal is given
    and [file] and [files] are mixed, a file is mixed with
    [attachments], [embed] and [embeds] are mixed, or more than 10
    embeds are given; it then raises a [TypeError] or [InvalidArgument].
    With [modal] it never fails, whatever the other arguments. *)
Theorem handle_message_parameters_errors (a : hmp_args) :
  (is_err (handle_message_parameters a) = true <->
   h_modal a = Missing /\
   ((is_given (h_files a) && is_given (h_file a)) ||
    ((is_given (h_file a) || is_given (h_files a)) && is_given (h_attachments a)) ||
    (is_given (h_embeds a) && is_given (h_embed a)) ||
    match h_embeds a with Given l => (10 <? length l)%nat | Missing => false end) = true) /\
  (forall e, handle_message_parameters a = inl e ->
   (exists msg, e = TypeError msg) \/ e = OtherException "InvalidArgument").
Proof.
  split; [|apply hmp_error_kind].
  destruct a as [content username avatar tts eph file files embed embeds view am prev typ att modal].
  destruct modal as [|md].
  2: { cbv beta iota zeta delta [handle_message_parameters h_modal is_err].
       split; [intros Hc; discriminate Hc|intros [Hm _]; discriminate Hm]. }
  destruct files as [|[|f0 fs]], file as [|f], att as [|atl], embeds as [|es], embed as [|eb].
  all: cbv beta iota delta [handle_message_parameters h_modal h_files h_file h_attachments h_embeds h_embed is_given andb orb].
  all: try (destruct (10 <? length es)%nat; cbv beta iota delta [orb]).
  all: split.
  all: first
    [ intros Hc; first [discriminate Hc | split; reflexivity]
    | intros [Hm Hc]; first [discriminate Hm | discriminate Hc | reflexivity] ].
Qed.

(** X9: when [handle_message_parameters] succeeds without a modal, the
    message dict has [content] ([null] for [None], else [str(content)])
    when content is given, [tts], and [flags] 64 exactly when ephemeral;
    it is wrapped as [{type, data}] when [type] is given. With no file it
    is sent as [payload] with an empty multipart; with files it is the
    [payload_json] entry of the multipart form, followed by one entry
    per file named ["file"] for a single file and ["file0"],
    ["file1"], ... for several. *)
Theorem handle_message_parameters_payload (a : hmp_args) r :
  handle_message_parameters a = inr r -> h_modal a = Missing ->
  exists body,
    dict_get "content" body =
      match h_content a with Given LNone => Some JNull | Given c => Some (JStr (py_str c)) | Missing => None end /\
    dict_get "tts" body = Some (JBool (h_tts a)) /\
    dict_get "flags" body = (if h_ephemeral a then Some (JInt 64) else None) /\
    let payload := match h_type a with Given t => [("type", JInt t); ("data", JObj body)] | Missing => body end in
    let files := match h_file a with Given f => Given [f] | Missing => h_files a end in
    r = match files with
        | Given ((_ :: _) as l) =>
            mkEWP None (Some (MPJson "payload_json" payload :: zip_with MPFile (file_part_names (length l)) l))
                  (Some files)
        | _ => mkEWP (Some payload) (Some []) (Some files)
        end.
Proof. apply hmp_payload_shape. Qed.

End MessageParameterFacts.

(** ** [InteractionResponse] (_patch.py 145-275) and [Context.send] *)

Section ResponseFacts.
Context `{DiscordObjects}.

Lemma callback_cases ok p st :
  callback ok p st = (None, mkIR (ir_responded st) (ir_modals st) (ir_callbacks st ++ [p]) (ir_followups st)) \/
  callback ok p st = (Some HTTPException, st).
Proof. unfold callback. destruct ok; auto. Qed.

Lemma ir_step_responded itype ok c st :
  ir_responded st = true ->
  ir_step itype ok c st =
    (Some InteractionResponded,
     match c with
     | CallSendModal m md => mkIR (ir_responded st) (send_modal (md_custom_id md) m (ir_modals st)) (ir_callbacks st) (ir_followups st)
     | _ => st
     end).
Proof.
  destruct st as [resp ms cbs fus]. simpl. intros ->.
  destruct c; simpl; unfold send_message, defer, pong, edit_message, ir_send_modal; simpl; done.
Qed.

Lemma respond_inv ok (r : exn + ExecuteWebhookParameters) st :
  ir_responded st = false -> ir_inv st ->
  ir_inv (snd (match r with inl e => (Some e, st) | inr p => then_responded (callback ok p st) end)).
Proof.
  unfold ir_inv. destruct st as [resp ms cbs fus]; simpl. intros -> Hi.
  destruct r as [e|p]; [done|]. unfold callback. destruct ok; simpl; [|done].
  rewrite length_app, Hi. done.
Qed.

Lemma ir_step_inv itype ok c st :
  ir_inv st -> ir_inv (snd (ir_step itype ok c st)).
Proof.
  intros Hi. destruct (ir_responded st) eqn:Hr.
  { rewrite ir_step_responded by done. destruct c; done. }
  destruct c as [a|e| |a|m md]; cbv beta iota zeta delta [ir_step send_message defer pong edit_message ir_send_modal]; rewrite ?Hr.
  - gen_hmp. by apply respond_inv.
  - destruct (Z.eqb itype 3), (Z.eqb itype 2); cbv beta iota; gen_hmp; first [by apply respond_inv | destruct s; done].
  - destruct (Z.eqb itype 1); [gen_hmp; by apply respond_inv|done].
  - destruct (Z.eqb itype 3); cbv beta iota delta [negb]; [gen_hmp; by apply respond_inv|done].
  - gen_hmp. apply respond_inv; [done|]. unfold ir_inv in *. simpl. by rewrite Hr in Hi.
Qed.

(** X10: over any sequence of calls on the response object, the state
    stays consistent: at most one interaction callback is ever made, and
    only together with setting [_responded]. Once the interaction is
    responded, every further call raises [InteractionResponded] and no
    callback is made. *)
Theorem ir_run_responds_once itype calls st :
  ir_inv st ->
  ir_inv (snd (ir_run itype calls st)) /\
  (ir_responded st = true ->
   fst (ir_run itype calls st) = repeat (Some InteractionResponded) (length calls) /\
   ir_callbacks (snd (ir_run itype calls st)) = ir_callbacks st).
Proof.
  revert st. induction calls as [|[c ok] r IH]; intros st Hi; simpl; [done|].
  destruct (ir_step itype ok c st) as [e st1] eqn:Es.
  assert (Hi1 : ir_inv st1) by (pose proof (ir_step_inv itype ok c st Hi) as Hs; by rewrite Es in Hs).
  destruct (IH st1 Hi1) as [IH1 IH2].
  destruct (ir_run itype r st1) as [es st2] eqn:Er. simpl in *.
  split; [done|]. intros Hresp.
  rewrite ir_step_responded in Es by done. injection Es as <- <-.
  destruct c; simpl in IH2; destruct IH2 as [-> ->]; done.
Qed.

(** X11: a call on the response object changes the connection's modal
    table only through [send_modal], which registers the modal under its
    custom id even when it then raises. A call that raises leaves
    [_responded], the callbacks and the follow-ups unchanged. *)
Theorem ir_step_modal_registration itype ok c st :
  ir_modals (snd (ir_step itype ok c st)) =
    match c with CallSendModal m md => send_modal (md_custom_id md) m (ir_modals st) | _ => ir_modals st end /\
  (forall e, fst (ir_step itype ok c st) = Some e ->
   ir_responded (snd (ir_step itype ok c st)) = ir_responded st /\
   ir_callbacks (snd (ir_step itype ok c st)) = ir_callbacks st /\
   ir_followups (snd (ir_step itype ok c st)) = ir_followups st).
Proof.
  destruct (ir_responded st) eqn:Hr.
  { rewrite ir_step_responded by done. destruct c; done. }
  destruct st as [resp ms cbs fus]; simpl in Hr; subst resp.
  destruct c as [a|e| |a|m md];
    cbv beta iota zeta delta [ir_step send_message defer pong edit_message ir_send_modal ir_responded].
  all: repeat match goal with |- context [Z.eqb ?x ?y] => is_var x; destruct (Z.eqb x y) end.
  all: cbv beta iota delta [negb Z.eqb Pos.eqb].
  all: try gen_hmp.
  all: repeat match goal with s : (exn + ExecuteWebhookParameters)%type |- _ => destruct s end.
  all: unfold then_responded, callback, with_responded; try destruct ok.
  all: cbv beta iota delta [ir_responded ir_modals ir_callbacks ir_followups fst snd].
  all: split; [reflexivity|]; intros ? He; first [discriminate He | done].
Qed.

(** X12: [defer] on an application command (type 2) or a component
    interaction (type 3) sends one callback of type 5 or 6 whose data is
    [tts] false, with [flags] 64 when ephemeral, and marks the
    interaction responded; a failed request raises [HTTPException] and
    changes nothing. *)
Theorem defer_response ok itype (eph : bool) st :
  ir_responded st = false -> itype = 2%Z \/ itype = 3%Z ->
  let p := mkEWP (Some [("type", JInt (if Z.eqb itype 3 then 6 else 5));
                        ("data", JObj (("tts", JBool false) :: (if eph then [("flags", JInt 64)] else [])))])
                 (Some []) (Some (@Missing (list File))) in
  defer ok itype eph st =
    if ok then (None, mkIR true (ir_modals st) (ir_callbacks st ++ [p]) (ir_followups st))
    else (Some HTTPException, st).
Proof.
  destruct st as [resp ms cbs fus]; simpl. intros -> Hit.
  destruct Hit as [-> | ->]; destruct eph, ok; vm_compute; reflexivity.
Qed.

(** X13: on an interaction of another type, [defer] (type not 2 or 3),
    [pong] (type not 1) and [edit_message] (type not 3) return without
    raising, sending anything or marking the interaction responded, even
    when the arguments of [edit_message] are invalid. *)
Theorem wrong_type_noop ok itype eph a st :
  ir_responded st = false ->
  (itype <> 2%Z -> itype <> 3%Z -> defer ok itype eph st = (None, st)) /\
  (itype <> 1%Z -> pong ok itype st = (None, st)) /\
  (itype <> 3%Z -> edit_message ok itype a st = (None, st)).
Proof.
  intros Hr. unfold defer, pong, edit_message. rewrite Hr.
  split; [|split]; intros Hne; [intros Hne'|..];
    repeat match goal with |- context [Z.eqb itype ?y] =>
      let E := fresh "E" in destruct (Z.eqb itype y) eqn:E; [apply Z.eqb_eq in E; congruence|] end.
  - destruct eph; vm_compute; reflexivity.
  - reflexivity.
  - reflexivity.
Qed.

Lemma ctx_step_ir itype ok c st :
  ctx_step itype ok c st =
  match c with
  | CtxSendModal m md => ir_step itype ok (CallSendModal m md) st
  | CtxDefer e => ir_step itype ok (CallDefer e) st
  | CtxSend content a =>
      if ir_responded st then
        if ok then (None, mkIR (ir_responded st) (ir_modals st) (ir_callbacks st) (ir_followups st ++ [(content, a)]))
        else (Some HTTPException, st)
      else
        ir_step itype ok (CallSendMessage (mkSendArgs
          (match content with Given c => if lit_truthy c then c else LNone | Missing => LNone end)
          (s_embed a) (s_embeds a) (s_file a) (s_files a) (s_view a) (s_tts a) (s_ephemeral a) (s_allowed_mentions a))) st
  end.
Proof. destruct c; reflexivity. Qed.

Lemma send_message_error ok a st e st' :
  ir_responded st = false -> send_message ok a st = (Some e, st') ->
  e <> InteractionResponded.
Proof.
  intros Hr. unfold send_message. rewrite Hr. cbv zeta.
  destruct (handle_message_parameters _) as [e0|p] eqn:Eh.
  - intros [= <- _]. destruct (hmp_error_kind _ _ Eh) as [[msg ->]| ->]; discriminate.
  - unfold then_responded, callback. destruct ok; [discriminate|]. intros [= <- _]. discriminate.
Qed.

(** X14: [Context.send] and [Context.defer] keep the response state
    consistent (at most one callback), and a sequence of [Context.send]
    calls without a modal never raises [InteractionResponded]: after the
    first response the sends go to the follow-up webhook. *)
Theorem ctx_run_sends itype calls st :
  ir_inv st ->
  ir_inv (snd (ctx_run itype calls st)) /\
  (Forall (fun c => match c.1 with CtxSend _ _ => True | _ => False end) calls ->
   Forall (fun e => e <> Some InteractionResponded) (fst (ctx_run itype calls st))).
Proof.
  revert st. induction calls as [|[c ok] r IH]; intros st Hi; simpl; [split; [done|constructor]|].
  destruct (ctx_step itype ok c st) as [e st1] eqn:Es.
  assert (Hi1 : ir_inv st1).
  { rewrite ctx_step_ir in Es. destruct c as [content a|m md|eph].
    - destruct (ir_responded st) eqn:Hr.
      + destruct ok; injection Es as <- <-; [|done]. unfold ir_inv in *. simpl. by rewrite Hr in Hi.
      + pose proof (ir_step_inv itype ok (CallSendMessage (mkSendArgs
          (match content with Given c => if lit_truthy c then c else LNone | Missing => LNone end)
          (s_embed a) (s_embeds a) (s_file a) (s_files a) (s_view a) (s_tts a) (s_ephemeral a) (s_allowed_mentions a))) st Hi) as Hs.
        by rewrite Es in Hs.
    - pose proof (ir_step_inv itype ok (CallSendModal m md) st Hi) as Hs. by rewrite Es in Hs.
    - pose proof (ir_step_inv itype ok (CallDefer eph) st Hi) as Hs. by rewrite Es in Hs. }
  destruct (IH st1 Hi1) as [IH1 IH2].
  destruct (ctx_run itype r st1) as [es st2] eqn:Er. simpl in *.
  split; [done|]. intros Hall. inversion Hall as [|? ? Hc Hrest]; subst.
  constructor; [|by apply IH2].
  destruct c as [content a| |]; [|done|done]. simpl in Es.
  destruct (ir_responded st) eqn:Hr.
  - destruct ok; injection Es as <- _; [done|]. discriminate.
  - destruct e as [e|]; [|done]. intros [= ->].
    exact (send_message_error _ _ _ _ _ Hr Es eq_refl).
Qed.

(** X15: the first successful [Context.send] responds with one callback
    of type 4 (channel message) whose data has [content] [str(content)]
    for truthy content and [null] for falsy or missing content, [tts],
    and [flags] 64 exactly when ephemeral; the modal table and the
    follow-ups are unchanged. *)
Theorem ctx_send_first itype content a st st' :
  ir_responded st = false ->
  ctx_step itype true (CtxSend content a) st = (None, st') ->
  ir_responded st' = true /\ ir_followups st' = ir_followups st /\ ir_modals st' = ir_modals st /\
  exists p body,
    ir_callbacks st' = ir_callbacks st ++ [p] /\
    ewp_json_payload p = Some [("type", JInt 4); ("data", JObj body)] /\
    dict_get "content" body =
      Some (match content with Given c => if lit_truthy c then JStr (py_str c) else JNull | Missing => JNull end) /\
    dict_get "tts" body = Some (JBool (s_tts a)) /\
    dict_get "flags" body = (if s_ephemeral a then Some (JInt 64) else None).
Proof.
  intros Hr. cbv beta iota zeta delta [ctx_step]. rewrite Hr. cbv beta iota zeta delta [send_message]. rewrite ?Hr. cbv iota.
  destruct (handle_message_parameters _) as [e|p] eqn:Eh; [discriminate|].
  unfold then_responded, callback. intros [= <-]. simpl.
  split; [done|split; [done|split; [done|]]].
  destruct (hmp_json_payload _ _ Eh eq_refl) as (body & Hc & Ht & Hf & Hp).
  exists p, body. simpl in Hc, Ht, Hf, Hp.
  split; [done|split; [done|split; [|split; done]]].
  rewrite Hc. destruct content as [|[z|s'|b|]]; simpl; try done.
  - destruct (negb (z =? 0)%Z); done.
  - destruct (negb (String.eqb s' "")); done.
  - destruct b; done.
Qed.

End ResponseFacts.

(** ** Instances of the statements above *)

Lemma handle_message_parameters_payload_witness :
  exists r, handle_message_parameters ex_hmp_args = inr r /\ h_modal ex_hmp_args = Missing /\
  exists body,
    dict_get "content" body =
      match h_content ex_hmp_args with Given LNone => Some JNull | Given c => Some (JStr (py_str c)) | Missing => None end /\
    dict_get "tts" body = Some (JBool (h_tts ex_hmp_args)) /\
    dict_get "flags" body = (if h_ephemeral ex_hmp_args then Some (JInt 64) else None) /\
    let payload := match h_type ex_hmp_args with Given t => [("type", JInt t); ("data", JObj body)] | Missing => body end in
    let files := match h_file ex_hmp_args with Given f => Given [f] | Missing => h_files ex_hmp_args end in
    r = match files with
        | Given ((_ :: _) as l) =>
            mkEWP None (Some (MPJson "payload_json" payload :: zip_with MPFile (file_part_names (length l)) l))
                  (Some files)
        | _ => mkEWP (Some payload) (Some []) (Some files)
        end.
Proof.
  eexists. split; [vm_compute; reflexivity|]. split; [reflexivity|].
  apply (handle_message_parameters_payload ex_hmp_args); [vm_compute; reflexivity|reflexivity].
Defined.

Lemma ir_run_responds_once_witness :
  let calls := [(CallDefer false, true); (CallSendMessage ex_send_args, true); (CallPong, true)] in
  ir_inv (snd (ir_run 2 calls ex_response)) /\
  (ir_responded ex_response = true ->
   fst (ir_run 2 calls ex_response) = repeat (Some InteractionResponded) (length calls) /\
   ir_callbacks (snd (ir_run 2 calls ex_response)) = ir_callbacks ex_response).
Proof.
  apply (ir_run_responds_once 2 [(CallDefer false, true); (CallSendMessage ex_send_args, true); (CallPong, true)]
           ex_response).
  reflexivity.
Defined.

Lemma defer_response_witness :
  let p := mkEWP (Some [("type", JInt (if Z.eqb 3 3 then 6 else 5));
                        ("data", JObj (("tts", JBool false) :: (if true then [("flags", JInt 64)] else [])))])
                 (Some []) (Some (@Missing (list File))) in
  defer true 3 true ex_response =
    if true then (None, mkIR true (ir_modals ex_response) (ir_callbacks ex_response ++ [p]) (ir_followups ex_response))
    else (Some HTTPException, ex_response).
Proof. apply (defer_response true 3 true ex_response); [reflexivity|right; reflexivity]. Defined.

Lemma wrong_type_noop_witness :
  (4%Z <> 2%Z -> 4%Z <> 3%Z -> defer true 4 false ex_response = (None, ex_response)) /\
  (4%Z <> 1%Z -> pong true 4 ex_response = (None, ex_response)) /\
  (4%Z <> 3%Z -> edit_message true 4 ex_edit_args ex_response = (None, ex_response)).
Proof. apply (wrong_type_noop true 4 false ex_edit_args ex_response). reflexivity. Defined.

Lemma ctx_run_sends_witness :
  let calls := [(CtxSend (Given (LStr "")) ex_send_args, true); (CtxSend Missing ex_send_args, true)] in
  ir_inv (snd (ctx_run 2 calls ex_response)) /\
  (Forall (fun c => match c.1 with CtxSend _ _ => True | _ => False end) calls ->
   Forall (fun e => e <> Some InteractionResponded) (fst (ctx_run 2 calls ex_response))).
Proof.
  apply (ctx_run_sends 2 [(CtxSend (Given (LStr "")) ex_send_args, true); (CtxSend Missing ex_send_args, true)]
           ex_response).
  reflexivity.
Defined.

Lemma ctx_send_first_witness :
  exists st', ctx_step 2 true (CtxSend (Given (LStr "")) ex_send_args) ex_response = (None, st') /\
  ir_responded st' = true /\ ir_followups st' = ir_followups ex_response /\ ir_modals st' = ir_modals ex_response /\
  exists p body,
    ir_callbacks st' = ir_callbacks ex_response ++ [p] /\
    ewp_json_payload p = Some [("type", JInt 4); ("data", JObj body)] /\
    dict_get "content" body =
      Some (match Given (LStr "") with Given c => if lit_truthy c then JStr (py_str c) else JNull | Missing => JNull end) /\
    dict_get "tts" body = Some (JBool (s_tts ex_send_args)) /\
    dict_get "flags" body = (if s_ephemeral ex_send_args then Some (JInt 64) else None).
Proof.
  eexists. split; [vm_compute; reflexivity|].
  apply (ctx_send_first 2 (Given (LStr "")) ex_send_args ex_response); [reflexivity|vm_compute; reflexivity].
Defined.

(** ** Resolver, sync, listeners and modal construction *)

(** X16: [Range(min, max)] succeeds exactly when [min] is [None] or
    [min < max], comparing ints and floats by value; it then stores both
    bounds unchanged. Otherwise (including [min = max]) it raises
    [ValueError]. *)
Theorem Range_new_validation mn mx :
  match Range_new mn mx with
  | inr r => r = mkRange mn mx /\ (mn = None \/ exists m, mn = Some m /\ (num_Q m < num_Q mx)%Q)
  | inl e => e = ValueError "`min` value must be lower than `max`" /\
             exists m, mn = Some m /\ (num_Q mx <= num_Q m)%Q
  end.
Proof.
  destruct mn as [m|]; simpl; [|by split; [|left]].
  destruct (Qle_bool (num_Q mx) (num_Q m)) eqn:E.
  - apply Qle_bool_iff in E. split; [done|]. by exists m.
  - split; [done|]. right. exists m. split; [done|].
    apply Qnot_le_lt. intros Hle. apply Qle_bool_iff in Hle. congruence.
Qed.

Section FoldSet.
Context {A V : Type} (key : A -> string) (val : A -> V).

Lemma fold_set_keys (l : list A) (d : list (string * V)) :
  map fst (fold_left (fun d x => pyd_set (key x) (val x) d) l d) =
  map fst d ++ filter (fun y => y ∉ map fst d) (dedup_first (map key l)).
Proof.
  revert d. induction l as [|x r IH]; intros d; simpl; [by rewrite app_nil_r|].
  rewrite IH, pyd_set_keys. destruct (decide (key x ∈ map fst d)) as [Hin|Hn].
  - rewrite filter_cons_False by tauto. f_equal. symmetry.
    apply list_filter_filter_l. intros y Hy ->. done.
  - rewrite filter_cons_True by done. rewrite <- app_assoc. simpl. f_equal. f_equal.
    rewrite list_filter_filter. apply list_filter_iff. intros y.
    rewrite elem_of_app, list_elem_of_singleton. tauto.
Qed.

Lemma fold_set_get (l : list A) (d : list (string * V)) c :
  pyd_get c (fold_left (fun d x => pyd_set (key x) (val x) d) l d) =
  match last (List.filter (fun x => String.eqb (key x) c) l) with
  | Some x => Some (val x)
  | None => pyd_get c d
  end.
Proof.
  revert d. induction l as [|x r IH]; intros d; simpl; [done|].
  rewrite IH. destruct (String.eqb (key x) c) eqn:E.
  - apply String.eqb_eq in E as <-. rewrite last_cons.
    destruct (last _); [done|]. apply pyd_get_set_eq.
  - destruct (last _); [done|]. apply pyd_get_set_ne. apply String.eqb_neq in E. congruence.
Qed.

Lemma fold_set_nodup (l : list A) (d : list (string * V)) :
  NoDup (map fst d) -> NoDup (map fst (fold_left (fun d x => pyd_set (key x) (val x) d) l d)).
Proof.
  revert d. induction l as [|x r IH]; intros d Hd; simpl; [done|].
  apply IH. by apply pyd_set_nodup.
Qed.

End FoldSet.

Lemma filter_notin_nil {A} `{EqDecision A} (l : list A) : filter (fun y => y ∉ @nil A) l = l.
Proof.
  induction l as [|x r IH]; [done|].
  rewrite filter_cons_True by apply not_elem_of_nil. by rewrite IH.
Qed.

Lemma omap_ext_elem {A B} (f g : A -> option B) (l : list A) :
  (forall x, x ∈ l -> f x = g x) -> omap f l = omap g l.
Proof.
  induction l as [|x r IH]; intros Hfg; [done|]. cbn.
  rewrite (Hfg x) by left. assert (omap f r = omap g r) as Hr.
  { apply IH. intros y Hy. apply Hfg. by right. }
  destruct (g x); cbn in *; by rewrite Hr.
Qed.

Lemma pyd_omap {V} (d : list (string * V)) :
  NoDup (map fst d) -> d = omap (fun c => (fun v => (c, v)) <$> pyd_get c d) (map fst d).
Proof.
  induction d as [|[k v] r IH]; simpl; [done|].
  intros Hnd. apply NoDup_cons in Hnd as [Hn Hnd]. rewrite String.eqb_refl. simpl. f_equal.
  rewrite IH at 1 by done. apply omap_ext_elem. intros c Hc.
  destruct (String.eqb c k) eqn:E; [|done]. apply String.eqb_eq in E as ->. done.
Qed.

Lemma map_omap_pair {B C} (g : B -> C) (f : string -> option B) (l : list string) :
  map (fun kv : string * B => g kv.2) (omap (fun c => (fun v => (c, v)) <$> f c) l) =
  omap (fun c => g <$> f c) l.
Proof.
  induction l as [|c r IH]; [done|]. cbn. destruct (f c); cbn; by rewrite IH.
Qed.

(** X25: [Modal(items=...)] keeps, for each custom id, the last item
    with that id, at the position where the id first appears:
    [get_item(c)] is the last item whose custom id is [c], and
    [to_dict()] emits one action row per distinct custom id in order of
    first appearance, holding that last item. *)
Theorem Modal_new_items title custom_id rnd items :
  let m := Modal_new title custom_id rnd items in
  let last_with c := last (List.filter (fun it => String.eqb (ti_custom_id it) c) items) in
  md_items m = omap (fun c => (fun it => (c, it)) <$> last_with c) (dedup_first (map ti_custom_id items)) /\
  (forall c, get_item m c = last_with c) /\
  dict_get "components" (Modal_to_dict m) =
    Some (JList (omap (fun c => item_row <$> last_with c) (dedup_first (map ti_custom_id items)))).
Proof.
  intros m last_with.
  assert (Hget : forall c, get_item m c = last_with c).
  { intros c. unfold get_item, m, Modal_new, items_dict, last_with. simpl.
    rewrite (fold_set_get ti_custom_id (fun it => it)). by destruct (last _). }
  assert (Hitems : md_items m = omap (fun c => (fun it => (c, it)) <$> last_with c)
                                     (dedup_first (map ti_custom_id items))).
  { assert (Hk : map fst (md_items m) = dedup_first (map ti_custom_id items)).
    { unfold m, Modal_new, items_dict. simpl.
      rewrite (fold_set_keys ti_custom_id (fun it => it)). simpl. apply filter_notin_nil. }
    assert (Hnd : NoDup (map fst (md_items m))).
    { unfold m, Modal_new, items_dict. simpl. apply (fold_set_nodup ti_custom_id (fun it => it)).
      constructor. }
    rewrite (pyd_omap (md_items m) Hnd) at 1. rewrite Hk. apply omap_ext_elem. intros c _.
    rewrite <- (Hget c). done. }
  split; [done|]. split; [done|].
  unfold Modal_to_dict. rewrite Hitems. simpl. do 2 f_equal.
  apply map_omap_pair.
Qed.

(** X26: [TextInput.to_dict()] always has the keys [type], [style],
    [custom_id], [label] and [required] (even when [required] is false),
    followed by [placeholder], [value], [min_length] and [max_length] in
    that order, each present exactly when the attribute is not [None]
    (a [min_length] of 0 included), with the attribute's value. *)
Theorem TextInput_to_dict_keys t :
  let d := TextInput_to_dict t in
  map fst d = ["type"; "style"; "custom_id"; "label"; "required"] ++
              (if ti_placeholder t then ["placeholder"] else []) ++
              (if ti_default_value t then ["value"] else []) ++
              (if ti_min_length t then ["min_length"] else []) ++
              (if ti_max_length t then ["max_length"] else []) /\
  dict_get "required" d = Some (JBool (ti_required t)) /\
  dict_get "placeholder" d = JStr <$> ti_placeholder t /\
  dict_get "value" d = JStr <$> ti_default_value t /\
  dict_get "min_length" d = JInt <$> ti_min_length t /\
  dict_get "max_length" d = JInt <$> ti_max_length t.
Proof.
  destruct t as [st cid lab req dv ph mn mx]; simpl.
  destruct ph, dv, mn, mx; vm_compute; repeat split.
Qed.

Lemma elem_of_dedup_first {A} `{EqDecision A} (x : A) l : x ∈ dedup_first l <-> x ∈ l.
Proof.
  induction l as [|y r IH]; simpl; [done|].
  rewrite !elem_of_cons, list_elem_of_filter, IH.
  destruct (decide (x = y)); naive_solver.
Qed.

Lemma dedup_keys_step {A} `{EqDecision A} (K : list A) (g : A) (D : list A) :
  (if decide (g ∈ K) then K else K ++ [g]) ++
    filter (fun y => y ∉ (if decide (g ∈ K) then K else K ++ [g])) D =
  K ++ filter (fun y => y ∉ K) (g :: filter (fun y => y <> g) D).
Proof.
  destruct (decide (g ∈ K)) as [Hin|Hn].
  - rewrite filter_cons_False by tauto. f_equal. symmetry.
    apply list_filter_filter_l. intros y Hy ->. done.
  - rewrite filter_cons_True by done. rewrite <- app_assoc. simpl. f_equal. f_equal.
    rewrite list_filter_filter. apply list_filter_iff. intros y.
    rewrite elem_of_app, list_elem_of_singleton. tauto.
Qed.

Lemma group_add_map (g : option Z) b (K : list (option Z)) (F : option Z -> list json) :
  NoDup K -> (g ∉ K -> F g = []) ->
  group_add g b (map (fun g' => (g', F g')) K) =
  map (fun g' => (g', if decide (g' = g) then F g ++ [b] else F g'))
      (if decide (g ∈ K) then K else K ++ [g]).
Proof.
  revert F. induction K as [|k r IH]; intros F Hnd Hg; simpl.
  - destruct (decide (g ∈ [])) as [Hi|_]; [by apply elem_of_nil in Hi|]. simpl.
    rewrite decide_True by done. rewrite Hg by apply not_elem_of_nil. done.
  - apply NoDup_cons in Hnd as [Hk Hnd]. destruct (decide (g = k)) as [->|Hne].
    + rewrite decide_True by left. simpl. rewrite decide_True by done. f_equal.
      apply map_ext_in. intros g' Hg'. rewrite decide_False; [done|].
      intros ->. apply Hk. by apply list_elem_of_In.
    + rewrite (IH F Hnd) by (intros Hn; apply Hg; rewrite elem_of_cons; tauto).
      destruct (decide (g ∈ r)) as [Hin|Hn].
      * rewrite decide_True by (by right). simpl. by rewrite decide_False by congruence.
      * rewrite decide_False by (rewrite elem_of_cons; tauto). simpl.
        by rewrite decide_False by congruence.
Qed.

Lemma fold_group_add l (K : list (option Z)) (F : option Z -> list json) :
  NoDup K -> (forall g, g ∉ K -> F g = []) ->
  fold_left (fun acc gb => group_add gb.1 gb.2 acc) l (map (fun g => (g, F g)) K) =
  map (fun g => (g, F g ++ bodies_for g l)) (K ++ filter (fun g => g ∉ K) (dedup_first (map fst l))).
Proof.
  revert K F. induction l as [|[g b] r IH]; intros K F Hnd HF; simpl.
  - rewrite app_nil_r. apply map_ext. intros g. by rewrite app_nil_r.
  - rewrite group_add_map by auto. rewrite IH.
    + rewrite dedup_keys_step. apply map_ext. intros g'. f_equal.
      unfold bodies_for. rewrite filter_cons. simpl.
      destruct (decide (g' = g)) as [->|Hne].
      * rewrite decide_True by done. simpl. by rewrite <- app_assoc.
      * by rewrite decide_False by congruence.
    + destruct (decide (g ∈ K)); [done|]. apply NoDup_app. split; [done|].
      split; [|apply NoDup_singleton]. intros x Hx Hx'. apply list_elem_of_singleton in Hx' as ->. done.
    + intros g' Hg'. destruct (decide (g' = g)) as [->|Hne].
      * destruct (decide (g ∈ K)); [done|]. destruct Hg'. apply elem_of_app. right. by left.
      * apply HF. intros Hin. apply Hg'. destruct (decide (g ∈ K)); [done|]. apply elem_of_app. by left.
Qed.

Lemma bodies_for_absent g l : g ∉ map fst l -> bodies_for g l = [].
Proof.
  induction l as [|[g' b] r IH]; intros Hn; [done|]. unfold bodies_for. rewrite filter_cons. simpl.
  rewrite decide_False by (intros ->; apply Hn; left). apply IH. intros Hin. apply Hn. by right.
Qed.

Lemma global_of_map (K : list (option Z)) (G : option Z -> list json) :
  match list_find (fun e : option Z * list json => e.1 = None) (map (fun g => (g, G g)) K) with
  | Some (_, (_, l)) => l
  | None => []
  end = if decide (None ∈ K) then G None else [].
Proof.
  induction K as [|k r IH]; [done|]. simpl.
  destruct (decide (k = None)) as [->|Hk].
  - by rewrite decide_True by left.
  - destruct (list_find _ (map _ r)) as [[i [g l]]|]; simpl;
      destruct (decide (None ∈ r)) as [Hin|Hn];
      (rewrite decide_True by (by right)) || (rewrite decide_False by (rewrite elem_of_cons; naive_solver));
      done.
Qed.

Lemma uploads_map application_id (K : list (option Z)) (G : option Z -> list json) :
  uploads application_id (map (fun g => (g, G g)) K) =
  (match (if decide (None ∈ K) then G None else []) with [] => [] | gc => [BulkUpsertGlobal application_id gc] end) ++
  flat_map (fun g => match g with Some gid => [BulkUpsertGuild application_id gid (G g)] | None => [] end) K.
Proof.
  assert (Hf : forall K', flat_map (fun e : option Z * list json =>
                  match e.1 with Some g => [BulkUpsertGuild application_id g e.2] | None => [] end)
                  (map (fun g => (g, G g)) K') =
             flat_map (fun g => match g with Some gid => [BulkUpsertGuild application_id gid (G g)] | None => [] end) K').
  { induction K' as [|k r IH]; [done|]. simpl. by rewrite IH. }
  unfold uploads. rewrite global_of_map, Hf. by destruct (if decide (None ∈ K) then G None else []).
Qed.

(** X17: the uploads of a sync group the built bodies by guild: one
    global upload with all bodies of commands without a guild id, in
    build order, made only when there is at least one, then one upload
    per guild id in order of first appearance, with that guild's bodies
    in build order. *)
Theorem sync_uploads_grouping application_id (l : list (option Z * json)) :
  uploads application_id (fold_left (fun acc gb => group_add gb.1 gb.2 acc) l []) =
  (match bodies_for None l with [] => [] | bs => [BulkUpsertGlobal application_id bs] end) ++
  flat_map (fun g => match g with Some gid => [BulkUpsertGuild application_id gid (bodies_for g l)] | None => [] end)
           (dedup_first (map fst l)).
Proof.
  assert (H : fold_left (fun acc gb => group_add gb.1 gb.2 acc) l [] =
              map (fun g => (g, bodies_for g l)) (dedup_first (map fst l))).
  { etransitivity; [apply (fold_group_add l [] (fun _ => [])); [constructor|done]|].
    cbn [app]. by rewrite filter_notin_nil. }
  rewrite H, uploads_map.
  f_equal. destruct (decide (None ∈ dedup_first (map fst l))) as [Hin|Hn]; [done|].
  rewrite bodies_for_absent; [done|]. intros Hin. apply Hn. by apply elem_of_dedup_first.
Qed.

(** X18: [_parse_resolved_data] returns an empty table for falsy data
    (absent, [None] or empty) whether or not the interaction comes from a
    guild, and raises [AssertionError] for truthy data outside a guild. *)
Theorem parse_resolved_data_guards i data :
  (py_truthy data = false -> parse_resolved_data i data = inr ∅) /\
  (py_truthy data = true -> i_guild i = false -> parse_resolved_data i data = inl AssertionError).
Proof.
  unfold parse_resolved_data. split; intros H; rewrite H; [done|]. intros G. by rewrite G.
Qed.

Lemma fill_members_inv ms (us : list (string * json)) (acc r : resolved_map) :
  NoDup (map (fun u => int_of_string u.1) us) ->
  fill_resolved (mk_member ms) us acc = inr r ->
  (forall id u, (id, u) ∈ us -> exists k md,
     int_of_string id = Some k /\ dict_get id ms = Some (JObj md) /\
     r !! k = Some (EMember (dict_set "user" u md))) /\
  (forall k, Some k ∉ map (fun u => int_of_string u.1) us -> r !! k = acc !! k) /\
  (forall k e, r !! k = Some e ->
     (exists id u, (id, u) ∈ us /\ int_of_string id = Some k) \/ acc !! k = Some e).
Proof.
  revert acc. induction us as [|[id u] rest IH]; intros acc Hnd Hf.
  { simpl in Hf. injection Hf as <-. split; [intros ?? Hin; by apply elem_of_nil in Hin|].
    split; [done|]. intros k e He. by right. }
  apply NoDup_cons in Hnd as [Hn Hnd]. simpl in Hn.
  cbn -[int_of_string] in Hf. unfold mk_member in Hf.
  destruct (dict_get id ms) as [md'|] eqn:Hmd; [|discriminate].
  destruct md' as [| | | | | |md]; try discriminate.
  all: cbn -[int_of_string] in Hf.
  all: try discriminate.
  destruct (int_of_string id) as [k|] eqn:Hk; [|discriminate]. cbn in Hf.
  destruct (IH _ Hnd Hf) as (H1 & H2 & H3).
  split; [|split].
  - intros id' u' Hin. apply elem_of_cons in Hin as [[= -> ->]|Hin].
    + exists k, md. split; [done|]. split; [done|].
      rewrite H2; [by rewrite lookup_insert_eq|]. exact Hn.
    + by apply H1.
  - intros k' Hk'. rewrite H2.
    + rewrite lookup_insert_ne; [done|]. intros Heq. apply Hk'. subst. simpl. rewrite Hk. left.
    + intros Hin. apply Hk'. by right.
  - intros k' e He. destruct (H3 k' e He) as [(id' & u' & Hin & Hk')|Ha].
    + left. exists id', u'. split; [by right|done].
    + destruct (decide (k' = k)) as [->|Hne].
      * left. exists id, u. split; [left|done].
      * right. by rewrite lookup_insert_ne in Ha.
Qed.

(** X19: in a guild, take resolved data with a [users] table whose IDs
    are distinct integers, a [members] table, and no other table. When
    [_parse_resolved_data] returns, every user ID has a [members] entry,
    and the result maps the user's integer ID to the member built from
    that entry with ['user'] set to the user data; it has no other
    entry. A user ID with no [members] entry makes it raise. *)
Theorem parse_resolved_data_members i d us ms r :
  i_guild i = true ->
  dict_get "users" d = Some (JObj us) -> dict_get "members" d = Some (JObj ms) ->
  Forall (fun key => dict_get key d = None) ["channels"; "messages"; "roles"; "attachments"] ->
  NoDup (map (fun u => int_of_string u.1) us) ->
  parse_resolved_data i (Some (JObj d)) = inr r ->
  (forall id u, (id, u) ∈ us -> exists k md,
     int_of_string id = Some k /\ dict_get id ms = Some (JObj md) /\
     r !! k = Some (EMember (dict_set "user" u md))) /\
  (forall k e, r !! k = Some e -> exists id u, (id, u) ∈ us /\ int_of_string id = Some k).
Proof.
  intros Hg Hu Hm Hother Hnd Hp.
  repeat (apply Forall_cons in Hother as [? Hother]).
  assert (Hd : py_truthy (Some (JObj d)) = true) by (destruct d; [discriminate|reflexivity]).
  unfold parse_resolved_data in Hp. rewrite Hd, Hg in Hp. cbn [negb as_dict bind_E] in Hp.
  unfold fill_optional, resolved_table at 2 3 4 5 in Hp.
  repeat match goal with H : dict_get _ d = None |- _ => rewrite H in Hp; clear H end.
  cbn [bind_E] in Hp.
  unfold resolved_table in Hp. rewrite Hu in Hp.
  destruct us as [|u0 us0] eqn:Eus.
  - cbn in Hp. injection Hp as <-. split; [intros ?? Hin; by apply elem_of_nil in Hin|].
    intros k e He. by rewrite lookup_empty in He.
  - cbn [length Nat.eqb negb bind_E] in Hp. rewrite <- Eus in *.
    rewrite Hm in Hp. cbn [bind_E as_dict] in Hp.
    assert (Hus : py_truthy (Some (JObj us)) = true) by (rewrite Eus; reflexivity).
    rewrite Hus in Hp. cbn [bind_E] in Hp.
    destruct (fill_resolved (mk_member ms) us ∅) as [e|r'] eqn:Hf;
      cbn [bind_E] in Hp; [discriminate|]. injection Hp as <-.
    destruct (fill_members_inv ms us ∅ r' Hnd Hf) as (H1 & _ & H3).
    split; [exact H1|]. intros k e He. destruct (H3 k e He) as [?|Ha]; [done|].
    by rewrite lookup_empty in Ha.
Qed.

Lemma args_set_absent k v (d : list (string * argval)) :
  k ∉ map fst d -> args_set k v d = d ++ [(k, v)].
Proof.
  induction d as [|[k' v'] r IH]; simpl; [done|].
  intros Hn. destruct (String.eqb k k') eqn:E.
  - apply String.eqb_eq in E as <-. destruct Hn. left.
  - f_equal. apply IH. intros Hin. apply Hn. by right.
Qed.

Lemma resolve_plain r (l : list (string * json * json)) acc :
  Forall (fun o => is_entity_option_type o.1.2 = false) l ->
  NoDup (map fst acc ++ map (fun o => o.1.1) l) ->
  resolve_options r (map plain_option l) acc = inr (acc ++ map (fun o => (o.1.1, AVJson o.2)) l).
Proof.
  revert acc. induction l as [|[[n t] v] rest IH]; intros acc Hf Hnd; simpl; [by rewrite app_nil_r|].
  apply Forall_cons in Hf as [Ht Hf]. simpl in Ht. unfold resolve_option, plain_option. simpl.
  rewrite Ht. simpl. rewrite args_set_absent.
  - rewrite IH; [by rewrite <- app_assoc|done|]. rewrite map_app. simpl. by rewrite <- app_assoc.
  - intros Hin. apply NoDup_app in Hnd as (_ & Hd & _). apply (Hd n Hin). left.
Qed.

(** X20: when every option of the invocation has a non-entity type
    and the option names are distinct, [_build_arguments] maps each name
    to its raw value, in the order of the options, whatever the resolved
    table holds, provided it parses. *)
Theorem build_arguments_plain i l r :
  dict_get "options" (i_data i) = Some (JList (map plain_option l)) ->
  parse_resolved_data i (dict_get "resolved" (i_data i)) = inr r ->
  Forall (fun o => is_entity_option_type o.1.2 = false) l ->
  NoDup (map (fun o => o.1.1) l) ->
  build_arguments i = inr (map (fun o => (o.1.1, AVJson o.2)) l).
Proof.
  intros Ho Hr Hf Hnd. unfold build_arguments. rewrite Ho. simpl. rewrite Hr. simpl.
  by apply (resolve_plain r l []).
Qed.

(** X21: a context-menu command's [_build_arguments] succeeds only
    with [{'target': e}], where [e] is the resolved entry for
    [int(target_id)]; without truthy resolved data it always raises. *)
Theorem context_menu_arguments_target i :
  (forall args, context_menu_arguments i = inr args ->
   exists r t k e, parse_resolved_data i (dict_get "resolved" (i_data i)) = inr r /\
     dict_get "target_id" (i_data i) = Some t /\ py_int t = inr k /\ r !! k = Some e /\
     args = [("target", AVEntity e)]) /\
  (py_truthy (dict_get "resolved" (i_data i)) = false -> is_err (context_menu_arguments i) = true).
Proof.
  unfold context_menu_arguments. split.
  - intros args H. destruct (parse_resolved_data _ _) as [e|r] eqn:Er; [done|]. simpl in H.
    destruct (dict_get "target_id" _) as [t|] eqn:Et; [|done]. simpl in H.
    destruct (py_int t) as [e|k] eqn:Ek; [done|]. simpl in H.
    destruct (r !! k) as [e|] eqn:Ee; [|done]. injection H as <-. by exists r, t, k, e.
  - intros Hf. unfold parse_resolved_data. rewrite Hf. simpl.
    destruct (dict_get "target_id" _) as [t|]; [|done]. simpl.
    destruct (py_int t) as [e|k]; [done|]. simpl. by rewrite lookup_empty.
Qed.

Lemma focused_options_none (l : list json) :
  Forall (fun o => exists d, o = JObj d /\ py_truthy (dict_get "focused" d) = false) l ->
  focused_options l = inr [].
Proof.
  induction 1 as [|o r (d & -> & Hd) _ IH]; [done|]. simpl. rewrite IH. simpl. by rewrite Hd.
Qed.

Lemma focused_options_dicts (l : list json) :
  Forall (fun o => exists d, o = JObj d) l -> exists fs, focused_options l = inr fs.
Proof.
  induction 1 as [|o r (d & ->) _ (fs & IH)]; [by eexists|]. simpl. rewrite IH. simpl. by eexists.
Qed.

Lemma focused_options_first pre od post :
  Forall (fun o => exists d, o = JObj d /\ py_truthy (dict_get "focused" d) = false) pre ->
  py_truthy (dict_get "focused" od) = true ->
  Forall (fun o => exists d, o = JObj d) post ->
  exists rest, focused_options (pre ++ JObj od :: post) = inr (JObj od :: rest).
Proof.
  intros Hpre Hod Hpost. induction Hpre as [|o r (d & -> & Hd) _ IH].
  - simpl. destruct (focused_options_dicts post Hpost) as (fs & Hfs). rewrite Hfs. simpl.
    rewrite Hod. by eexists.
  - destruct IH as (rest & IH). simpl. rewrite IH. simpl. rewrite Hd. by eexists.
Qed.

(** X22: in an autocomplete interaction whose options are dicts, the
    cog raises [IndexError] when none is focused. Otherwise it answers
    for the first focused option only: it calls that option's handler of
    the named command on the option's value and passes a type-8 payload,
    whose choices have name and value [str(r)] for each result [r] in
    order, to [interaction.response.send_autocomplete_result]. The
    patched [InteractionResponse] has no such method: when discord.py's
    class lacks it as well, the listener raises [AttributeError] and
    nothing is sent; otherwise the outcome is that method's. *)
Theorem cog_autocomplete_first_focused response cmds data n l :
  dict_get "name" data = Some (JStr n) ->
  dict_get "options" data = Some (JList l) ->
  (Forall (fun o => exists d, o = JObj d /\ py_truthy (dict_get "focused" d) = false) l ->
   cog_autocomplete response cmds data = inl IndexError) /\
  (forall pre od post c hs on handler v res,
   l = pre ++ JObj od :: post ->
   Forall (fun o => exists d, o = JObj d /\ py_truthy (dict_get "focused" d) = false) pre ->
   py_truthy (dict_get "focused" od) = true ->
   Forall (fun o => exists d, o = JObj d) post ->
   pyd_get n cmds = Some c -> cc_handlers c = Some hs ->
   dict_get "name" od = Some (JStr on) -> pyd_get on hs = Some handler ->
   dict_get "value" od = Some v -> handler v = inr res ->
   cog_autocomplete response cmds data =
     let payload := [("type", JInt 8); ("data", JObj [("choices", JList (map autocomplete_choice res))])] in
     match response with
     | None => inl (AttributeError "'InteractionResponse' object has no attribute 'send_autocomplete_result'")
     | Some send => match send payload with inl e => inl e | inr _ => inr payload end
     end).
Proof.
  intros Hn Ho. split.
  - intros Hnone. unfold cog_autocomplete. simpl. rewrite Hn. simpl. rewrite Ho. simpl.
    by rewrite focused_options_none.
  - intros pre od post c hs on handler v res -> Hpre Hod Hpost Hc Hhs Hon Hh Hv Hres.
    destruct (focused_options_first pre od post Hpre Hod Hpost) as (rest & Hf).
    unfold cog_autocomplete. simpl. rewrite Hn. simpl. rewrite Hc, Ho. simpl. rewrite Hf. simpl.
    rewrite Hhs. simpl. rewrite Hon. simpl. rewrite Hh. simpl. rewrite Hv. simpl. rewrite Hres.
    simpl. destruct response as [send|]; simpl; [|done]. by destruct (send _).
Qed.

(** X23: the cog's listener never invokes an application command: for
    a command registered in the cog it raises [TypeError] (it passes one
    argument too many to [_build_arguments]), and for an unknown name it
    returns without doing anything. *)
Theorem cog_command_branch_raises response cmds data n :
  dict_get "name" data = Some (JStr n) ->
  cog_command_branch response cmds 2 data =
    match pyd_get n cmds with
    | Some _ => inl (TypeError "_build_arguments() takes 3 positional arguments but 4 were given")
    | None => inr None
    end.
Proof. intros Hn. unfold cog_command_branch. simpl. rewrite Hn. simpl. by destruct (pyd_get n cmds). Qed.

Lemma register_get c h reg n :
  pyd_get n (register_cog c h reg) =
  match last_named (cog_members c) h n with Some i => Some i | None => pyd_get n reg end.
Proof.
  unfold register_cog, last_named. destruct c as [b ms]. simpl. revert reg.
  induction ms as [|i r IH]; intros reg; simpl; [done|]. rewrite IH.
  destruct (h !! i) as [o|]; [|done].
  destruct (String.eqb (command_name (co_cmd o)) n) eqn:E.
  - apply String.eqb_eq in E as <-. rewrite last_cons.
    destruct (last _); [done|]. apply pyd_get_set_eq.
  - destruct (last _); [done|]. apply pyd_get_set_ne. apply String.eqb_neq in E. congruence.
Qed.

Lemma get_application_command_sync cogs h n :
  get_application_command (sync_registry cogs h) (JStr n) = inr (first_command cogs h n).
Proof.
  induction cogs as [|c r IH]; [done|]. simpl.
  destruct (is_slash_cog c); [|done]. simpl. rewrite register_get. simpl.
  by destruct (last_named _ _ _).
Qed.

Lemma first_command_named cogs h n ref :
  first_command cogs h n = Some ref -> exists o, h !! ref = Some o /\ command_name (co_cmd o) = n.
Proof.
  induction cogs as [|c r IH]; [done|]. simpl.
  destruct (is_slash_cog c); [|apply IH].
  destruct (last_named _ _ _) eqn:E; [|apply IH]. intros [= <-].
  unfold last_named in E. apply last_Some_elem_of, list_elem_of_In, filter_In in E as [_ E].
  destruct (h !! n0) as [o|]; [|done]. apply String.eqb_eq in E. by exists o.
Qed.

(** X24: after a sync, the bot looks a command name up in the first
    [Cog] (in load order) that has a member command of that name, and
    finds the last such member of that cog. It then invokes that command
    with the arguments its [_build_arguments] builds; an error raised
    there leaves the listener before the [try], so it never reaches the
    error hook. An unknown name is ignored. *)
Theorem bot_dispatch_after_sync cogs h i n :
  dict_get "name" (i_data i) = Some (JStr n) ->
  get_application_command (sync_registry cogs h) (JStr n) = inr (first_command cogs h n) /\
  (first_command cogs h n = None -> bot_command_branch (sync_registry cogs h) h 2 i = inr None) /\
  (forall ref, first_command cogs h n = Some ref ->
   exists o, h !! ref = Some o /\ command_name (co_cmd o) = n /\
     bot_command_branch (sync_registry cogs h) h 2 i =
       match (match co_cmd o with CSlash _ => build_arguments i | _ => context_menu_arguments i end) with
       | inl e => inl e
       | inr params => inr (Some (ref, params))
       end).
Proof.
  intros Hn. pose proof (get_application_command_sync cogs h n) as Hg. split; [done|].
  unfold bot_command_branch. simpl. rewrite Hn. simpl. rewrite Hg. simpl. split; [by intros ->|].
  intros ref Href. destruct (first_command_named cogs h n ref Href) as (o & Ho & Hname).
  exists o. split; [done|]. split; [done|]. rewrite Href, Ho.
  by destruct (match co_cmd o with CSlash _ => _ | _ => _ end).
Qed.

Section ModalResponse.
Context `{DiscordObjects}.

(** X27: [Context.send(modal=...)] before any response registers the
    modal under its custom id and sends one callback of type 9 whose data
    is [modal.to_dict()], then marks the interaction responded. If the
    request fails, it raises [HTTPException], the interaction stays
    unresponded and the modal stays registered. *)
Theorem ctx_send_modal_response itype ok m md st :
  ir_responded st = false ->
  ctx_step itype ok (CtxSendModal m md) st =
    if ok then
      (None, mkIR true (send_modal (md_custom_id md) m (ir_modals st))
                  (ir_callbacks st ++ [mkEWP (Some [("type", JInt 9); ("data", JObj (Modal_to_dict md))]) None None])
                  (ir_followups st))
    else (Some HTTPException, mkIR false (send_modal (md_custom_id md) m (ir_modals st))
                                   (ir_callbacks st) (ir_followups st)).
Proof.
  intros Hr. unfold ctx_step, ir_send_modal. cbn [ir_responded]. rewrite Hr.
  cbv beta iota delta [handle_message_parameters h_modal].
  unfold then_responded, callback. destruct ok; simpl; [done|]. by rewrite <- Hr.
Qed.

End ModalResponse.

Lemma parse_resolved_data_members_witness :
  exists r, parse_resolved_data (mkInteraction true []) (Some (JObj ex_resolved_data)) = inr r /\
  (forall id u, (id, u) ∈ ex_users -> exists k md,
     int_of_string id = Some k /\ dict_get id ex_members = Some (JObj md) /\
     r !! k = Some (EMember (dict_set "user" u md))) /\
  (forall k e, r !! k = Some e -> exists id u, (id, u) ∈ ex_users /\ int_of_string id = Some k).
Proof.
  set (r := match parse_resolved_data (mkInteraction true []) (Some (JObj ex_resolved_data))
            with inr r => r | inl _ => ∅ end).
  assert (Hp : parse_resolved_data (mkInteraction true []) (Some (JObj ex_resolved_data)) = inr r)
    by (unfold r; vm_compute; reflexivity).
  exists r. split; [exact Hp|].
  apply (parse_resolved_data_members (mkInteraction true []) ex_resolved_data ex_users ex_members r);
    [reflexivity|reflexivity|reflexivity|repeat constructor| |exact Hp].
  apply (bool_decide_unpack _). vm_compute. exact I.
Defined.

Lemma build_arguments_plain_witness :
  build_arguments ex_dm_interaction = inr (map (fun o => (o.1.1, AVJson o.2)) ex_plain_options).
Proof.
  apply (build_arguments_plain ex_dm_interaction ex_plain_options ∅).
  - reflexivity.
  - reflexivity.
  - repeat constructor.
  - apply (bool_decide_unpack _). vm_compute. exact I.
Defined.

Lemma cog_autocomplete_first_focused_witness :
  cog_autocomplete None ex_cog_cmds ex_autocomplete_data =
    inl (AttributeError "'InteractionResponse' object has no attribute 'send_autocomplete_result'") /\
  cog_autocomplete (Some (fun _ => inr tt)) ex_cog_cmds ex_autocomplete_data =
    inr [("type", JInt 8); ("data", JObj [("choices", JList (map autocomplete_choice [LStr "a"; LInt 2]))])].
Proof.
  split.
  - eapply (proj2 (cog_autocomplete_first_focused None ex_cog_cmds ex_autocomplete_data "pog"
                     ex_autocomplete_options eq_refl eq_refl)
              [JObj [("name", JStr "p"); ("value", JInt 1)]]
              [("name", JStr "q"); ("value", JStr "x"); ("focused", JBool true)]
              [JObj [("name", JStr "r"); ("value", JStr "y"); ("focused", JBool true)]]);
      try reflexivity; repeat econstructor.
  - eapply (proj2 (cog_autocomplete_first_focused (Some (fun _ => inr tt)) ex_cog_cmds
                     ex_autocomplete_data "pog" ex_autocomplete_options eq_refl eq_refl)
              [JObj [("name", JStr "p"); ("value", JInt 1)]]
              [("name", JStr "q"); ("value", JStr "x"); ("focused", JBool true)]
              [JObj [("name", JStr "r"); ("value", JStr "y"); ("focused", JBool true)]]);
      try reflexivity; repeat econstructor.
Defined.

Lemma cog_command_branch_raises_witness :
  cog_command_branch None ex_cog_cmds 2 [("name", JStr "pog")] =
    match pyd_get "pog" ex_cog_cmds with
    | Some _ => inl (TypeError "_build_arguments() takes 3 positional arguments but 4 were given")
    | None => inr None
    end.
Proof. apply (cog_command_branch_raises None ex_cog_cmds [("name", JStr "pog")] "pog"). reflexivity. Defined.

Lemma bot_dispatch_after_sync_witness :
  let i := mkInteraction true [("name", JStr "pin"); ("target_id", JStr "5")] in
  get_application_command (sync_registry ex_registry_cogs ex_registry_heap) (JStr "pin") =
    inr (first_command ex_registry_cogs ex_registry_heap "pin") /\
  (first_command ex_registry_cogs ex_registry_heap "pin" = None ->
   bot_command_branch (sync_registry ex_registry_cogs ex_registry_heap) ex_registry_heap 2 i = inr None) /\
  (forall ref, first_command ex_registry_cogs ex_registry_heap "pin" = Some ref ->
   exists o, ex_registry_heap !! ref = Some o /\ command_name (co_cmd o) = "pin" /\
     bot_command_branch (sync_registry ex_registry_cogs ex_registry_heap) ex_registry_heap 2 i =
       match (match co_cmd o with CSlash _ => build_arguments i | _ => context_menu_arguments i end) with
       | inl e => inl e
       | inr params => inr (Some (ref, params))
       end).
Proof.
  apply (bot_dispatch_after_sync ex_registry_cogs ex_registry_heap
           (mkInteraction true [("name", JStr "pin"); ("target_id", JStr "5")]) "pin").
  reflexivity.
Defined.

Lemma ctx_send_modal_response_witness :
  ctx_step 2 true (CtxSendModal 0 ex_modal) ex_response =
    if true then
      (None, mkIR true (send_modal (md_custom_id ex_modal) 0 (ir_modals ex_response))
                  (ir_callbacks ex_response ++
                   [mkEWP (Some [("type", JInt 9); ("data", JObj (Modal_to_dict ex_modal))]) None None])
                  (ir_followups ex_response))
    else (Some HTTPException, mkIR false (send_modal (md_custom_id ex_modal) 0 (ir_modals ex_response))
                                   (ir_callbacks ex_response) (ir_followups ex_response)).
Proof. apply (ctx_send_modal_response 2 true 0 ex_modal ex_response). reflexivity. Defined.
